(** * rkui2api: the streaming relay of [api_client.py]

    A shallow embedding of [call_api], [handle_stream_response] (with its
    inner generator [generate]) and [handle_non_stream_response], together
    with the parts of the Python runtime they rely on ([str] methods, the two
    regular expressions, [json.loads]).

    Python text is a sequence of Unicode code points, so a [str] is modelled
    as a list of code points.  Exceptions are modelled by an error type and a
    small error monad; the generator by the list of frames it yields. *)

From Stdlib Require Import String Ascii Bool NArith ZArith Lia List.
Import ListNotations.


(** ** Python [str] *)

Module PyStr.

Definition str := list N.

(** Literals: [u "abc"] is the text of an ASCII literal. *)
Definition u (s : string) : str :=
  List.map N_of_ascii (list_ascii_of_string s).

(** Literals that contain double quotes are written with an apostrophe in
    place of each double quote: [uq "{'x':1}"] is the text [{"x":1}]. *)
Definition uq (s : string) : str :=
  List.map (fun c => if N.eqb c 39 then 34%N else c) (u s).

Definition nl : N := 10.

Fixpoint str_eqb (a b : str) : bool :=
  match a, b with
  | [], [] => true
  | x :: a', y :: b' => N.eqb x y && str_eqb a' b'
  | _, _ => false
  end.

(** [s.startswith(p)] *)
Fixpoint startswith (p s : str) : bool :=
  match p, s with
  | [], _ => true
  | x :: p', y :: s' => N.eqb x y && startswith p' s'
  | _ :: _, [] => false
  end.

(** [s.endswith(p)] *)
Definition endswith (p s : str) : bool :=
  startswith (rev p) (rev s).

(** [c.isspace()], which is also the class [\s] of [re] on [str] patterns:
    CPython's [_PyUnicode_IsWhitespace]. *)
Definition isspace (c : N) : bool :=
  ((9 <=? c) && (c <=? 13) || (28 <=? c) && (c <=? 32)
   || (c =? 133) || (c =? 160) || (c =? 5760)
   || (8192 <=? c) && (c <=? 8202)
   || (c =? 8232) || (c =? 8233) || (c =? 8239) || (c =? 8287)
   || (c =? 12288))%N.

(** [s.lstrip()] *)
Fixpoint lstrip (s : str) : str :=
  match s with
  | c :: t => if isspace c then lstrip t else s
  | [] => []
  end.

(** [s.rstrip()] *)
Definition rstrip (s : str) : str := rev (lstrip (rev s)).

(** [s.strip()] *)
Definition strip (s : str) : str := rstrip (lstrip s).

(** [p in s] for a non-empty or empty pattern: substring test. *)
Fixpoint contains (p s : str) : bool :=
  startswith p s ||
  match s with
  | [] => false
  | _ :: t => contains p t
  end.

(** [s[s.find(c):]] when [c] occurs in [s]; [None] when [s.find(c)] is -1. *)
Fixpoint from_first (c : N) (s : str) : option str :=
  match s with
  | [] => None
  | x :: t => if N.eqb x c then Some s else from_first c t
  end.

(** [s.split("\n", 1)] when ["\n" in s]; [None] when it is not. *)
Fixpoint split_once (s : str) : option (str * str) :=
  match s with
  | [] => None
  | c :: t =>
      if N.eqb c nl then Some ([], t)
      else match split_once t with
           | Some (l, r) => Some (c :: l, r)
           | None => None
           end
  end.

End PyStr.

Import PyStr.

(** ** The line reassembler

    Both [generate] and [handle_non_stream_response] run the same two nested
    loops over the chunks of [response.aiter_text()]:
<<
      for chunk in chunks:
          buffer += chunk
          while "\n" in buffer:
              line, buffer = buffer.split("\n", 1)
              <body, which reads [line] and never touches [buffer]>
>>
    The loops are embedded once, over the state [St] that the body updates.
    The [while] loop takes fuel; [while_newline] gives it the length of the
    buffer, which [while_fuel_exit] shows to be enough to reach the exit
    test. *)

Section Reassembly.

Variable St : Type.
Variable body : St -> str -> St.

Fixpoint while_fuel (fuel : nat) (st : St) (buffer : str) : St * str :=
  match fuel with
  | O => (st, buffer)
  | S fuel' =>
      match split_once buffer with
      | Some (line, rest) => while_fuel fuel' (body st line) rest
      | None => (st, buffer)
      end
  end.

Definition while_newline (st : St) (buffer : str) : St * str :=
  while_fuel (length buffer) st buffer.

Fixpoint for_chunks (st : St) (buffer : str) (chunks : list str) : St * str :=
  match chunks with
  | [] => (st, buffer)
  | chunk :: chunks' =>
      let '(st', buffer') := while_newline st (buffer ++ chunk) in
      for_chunks st' buffer' chunks'
  end.

End Reassembly.

Arguments while_fuel {St} body fuel st buffer.
Arguments while_newline {St} body st buffer.
Arguments for_chunks {St} body st buffer chunks.

(** The text of [ls] as the upstream sends it: each line newline-terminated. *)
Definition unlines (ls : list str) : str :=
  concat (List.map (fun l => l ++ [nl]) ls).

(** The body that only records the logical lines it is given. *)
Definition record_line (seen : list str) (line : str) : list str :=
  seen ++ [line].

(** The logical lines produced from a chunk sequence, and the buffer left. *)
Definition reassemble (chunks : list str) : list str * str :=
  for_chunks record_line [] [] chunks.

(** ** [json.loads]

    The decoder of CPython's [json] package ([json.decoder], with the
    scanner and [scanstring] of [_json.c], strict mode), on [str] input.
    A number keeps its literal text: the relay never computes with one.
    An object keeps its members in document order; [dict_get] reads the last
    binding of a key, as the [dict] built by the decoder does.  Every error
    of the decoder is a [JSONDecodeError], modelled by [PErr].  The decoder
    takes fuel, and [PFuel] is kept apart from [PErr]; [json_loads] gives
    enough fuel for any input ([json_loads_fuel]).

    Two behaviours of CPython that depend on the settings of the interpreter
    are outside the model: beyond its recursion limit [json.loads] raises
    [RecursionError], and for an integer literal of more than 4300 digits it
    raises [ValueError]; neither is a [JSONDecodeError].  What is proved
    through [json_loads] is about texts within those two limits. *)

Module Json.

#[warnings="-register-all"]
Inductive json : Type :=
| JNull
| JBool (b : bool)
| JNum (literal : str)
| JStr (s : str)
| JArr (items : list json)
| JObj (members : list (str * json)).

Inductive pres (A : Type) : Type :=
| POk (a : A) (rest : str)
| PErr
| PFuel.
Arguments POk {A} a rest.
Arguments PErr {A}.
Arguments PFuel {A}.

(** [WHITESPACE = re.compile(r'[ \t\n\r]*')] *)
Definition json_ws (c : N) : bool :=
  ((c =? 32) || (c =? 9) || (c =? 10) || (c =? 13))%N.

Fixpoint skip_ws (s : str) : str :=
  match s with
  | c :: t => if json_ws c then skip_ws t else s
  | [] => []
  end.

Definition is_digit (c : N) : bool := ((48 <=? c) && (c <=? 57))%N.

Definition hexval (c : N) : option N :=
  if ((48 <=? c) && (c <=? 57))%N then Some (c - 48)%N
  else if ((97 <=? c) && (c <=? 102))%N then Some (c - 87)%N
  else if ((65 <=? c) && (c <=? 70))%N then Some (c - 55)%N
  else None.

(** The four hexadecimal digits of a [\uXXXX] escape. *)
Definition hex4 (s : str) : option (N * str) :=
  match s with
  | a :: b :: c :: d :: t =>
      match hexval a, hexval b, hexval c, hexval d with
      | Some a', Some b', Some c', Some d' =>
          Some (a' * 4096 + b' * 256 + c' * 16 + d', t)%N
      | _, _, _, _ => None
      end
  | _ => None
  end.

(** The one-character escapes: quote, backslash, slash, b, f, n, r, t. *)
Definition unescape (e : N) : option N :=
  if (e =? 34)%N then Some 34%N
  else if (e =? 92)%N then Some 92%N
  else if (e =? 47)%N then Some 47%N
  else if (e =? 98)%N then Some 8%N
  else if (e =? 102)%N then Some 12%N
  else if (e =? 110)%N then Some 10%N
  else if (e =? 114)%N then Some 13%N
  else if (e =? 116)%N then Some 9%N
  else None.

Definition is_high_surrogate (c : N) : bool :=
  ((55296 <=? c) && (c <=? 56319))%N.
Definition is_low_surrogate (c : N) : bool :=
  ((56320 <=? c) && (c <=? 57343))%N.
Definition join_surrogates (hi lo : N) : N :=
  (65536 + ((hi - 55296) * 1024 + (lo - 56320)))%N.

(** [scanstring], entered after the opening quote; [acc] is reversed. *)
Fixpoint scanstring_fuel (fuel : nat) (s : str) (acc : str) : pres str :=
  match fuel with
  | O => PFuel
  | S f =>
      match s with
      | [] => PErr
      | c :: t =>
          if (c =? 34)%N then POk (rev acc) t
          else if (c =? 92)%N then
            match t with
            | [] => PErr
            | e :: t' =>
                if (e =? 117)%N then
                  match hex4 t' with
                  | None => PErr
                  | Some (c1, t1) =>
                      if is_high_surrogate c1 && startswith [92; 117]%N t1 then
                        match hex4 (skipn 2 t1) with
                        | None => PErr
                        | Some (c2, t2) =>
                            if is_low_surrogate c2
                            then scanstring_fuel f t2 (join_surrogates c1 c2 :: acc)
                            else scanstring_fuel f t1 (c1 :: acc)
                        end
                      else scanstring_fuel f t1 (c1 :: acc)
                  end
                else
                  match unescape e with
                  | Some x => scanstring_fuel f t' (x :: acc)
                  | None => PErr
                  end
            end
          else if (c <=? 31)%N then PErr
          else scanstring_fuel f t (c :: acc)
      end
  end.

Definition scanstring (s : str) : pres str :=
  scanstring_fuel (S (length s)) s [].

Fixpoint span_digits (s : str) : str * str :=
  match s with
  | c :: t =>
      if is_digit c then let '(d, r) := span_digits t in (c :: d, r)
      else ([], s)
  | [] => ([], [])
  end.

(** [_match_number_unicode]: an optional minus sign; a zero, or a digit from
    1 to 9 and then digits; optionally a dot and one digit or more;
    optionally e or E, an optional sign and one digit or more. *)
Definition match_number (s : str) : option (str * str) :=
  let '(sign, s1) :=
    match s with
    | c :: t => if (c =? 45)%N then ([c], t) else ([], s)
    | [] => ([], s)
    end in
  match s1 with
  | [] => None
  | c :: t =>
      let int_part :=
        if (c =? 48)%N then Some ([c], t)
        else if is_digit c then let '(d, r) := span_digits t in Some (c :: d, r)
        else None in
      match int_part with
      | None => None
      | Some (ip, s2) =>
          let '(frac, s3) :=
            match s2 with
            | dot :: rest =>
                if (dot =? 46)%N then
                  match span_digits rest with
                  | ([], _) => ([], s2)
                  | (d, r) => (dot :: d, r)
                  end
                else ([], s2)
            | [] => ([], s2)
            end in
          let '(ex, s4) :=
            match s3 with
            | e :: rest =>
                if ((e =? 101) || (e =? 69))%N then
                  let '(sg, rest') :=
                    match rest with
                    | c' :: r' =>
                        if ((c' =? 43) || (c' =? 45))%N then ([c'], r')
                        else ([], rest)
                    | [] => ([], rest)
                    end in
                  match span_digits rest' with
                  | ([], _) => ([], s3)
                  | (d, r) => (e :: sg ++ d, r)
                  end
                else ([], s3)
            | [] => ([], s3)
            end in
          Some (sign ++ ip ++ frac ++ ex, s4)
      end
  end.

(** [scan_once], with [JSONObject] ([parse_members], entered at a key) and
    [JSONArray] ([parse_items], entered at an item). *)
Fixpoint scan_once (fuel : nat) (s : str) : pres json :=
  match fuel with
  | O => PFuel
  | S f =>
      match s with
      | [] => PErr
      | c :: t =>
          if (c =? 34)%N then
            match scanstring t with
            | POk k r => POk (JStr k) r
            | PErr => PErr
            | PFuel => PFuel
            end
          else if (c =? 123)%N then
            match skip_ws t with
            | c' :: r => if (c' =? 125)%N then POk (JObj []) r
                         else parse_members f (c' :: r) []
            | [] => PErr
            end
          else if (c =? 91)%N then
            match skip_ws t with
            | c' :: r => if (c' =? 93)%N then POk (JArr []) r
                         else parse_items f (c' :: r) []
            | [] => PErr
            end
          else if startswith (u "null") s then POk JNull (skipn 4 s)
          else if startswith (u "true") s then POk (JBool true) (skipn 4 s)
          else if startswith (u "false") s then POk (JBool false) (skipn 5 s)
          else if startswith (u "-Infinity") s
               then POk (JNum (u "-Infinity")) (skipn 9 s)
          else
            match match_number s with
            | Some (lit, r) => POk (JNum lit) r
            | None =>
                if startswith (u "NaN") s then POk (JNum (u "NaN")) (skipn 3 s)
                else if startswith (u "Infinity") s
                     then POk (JNum (u "Infinity")) (skipn 8 s)
                else PErr
            end
      end
  end

with parse_members (fuel : nat) (s : str) (acc : list (str * json))
  : pres json :=
  match fuel with
  | O => PFuel
  | S f =>
      match s with
      | [] => PErr
      | c :: t =>
          if (c =? 34)%N then
            match scanstring t with
            | POk key r1 =>
                match skip_ws r1 with
                | c2 :: r2 =>
                    if (c2 =? 58)%N then
                      match scan_once f (skip_ws r2) with
                      | POk v r3 =>
                          match skip_ws r3 with
                          | c3 :: r4 =>
                              if (c3 =? 125)%N
                              then POk (JObj (rev ((key, v) :: acc))) r4
                              else if (c3 =? 44)%N
                              then parse_members f (skip_ws r4) ((key, v) :: acc)
                              else PErr
                          | [] => PErr
                          end
                      | PErr => PErr
                      | PFuel => PFuel
                      end
                    else PErr
                | [] => PErr
                end
            | PErr => PErr
            | PFuel => PFuel
            end
          else PErr
      end
  end

with parse_items (fuel : nat) (s : str) (acc : list json) : pres json :=
  match fuel with
  | O => PFuel
  | S f =>
      match scan_once f s with
      | POk v r1 =>
          match skip_ws r1 with
          | c :: r2 =>
              if (c =? 93)%N then POk (JArr (rev (v :: acc))) r2
              else if (c =? 44)%N then parse_items f (skip_ws r2) (v :: acc)
              else PErr
          | [] => PErr
          end
      | PErr => PErr
      | PFuel => PFuel
      end
  end.

(** [json.loads(s)]: [None] is [JSONDecodeError]. *)
Definition json_loads (s : str) : option json :=
  if startswith [65279%N] s then None
  else
    match scan_once (2 * length s + 2) (skip_ws s) with
    | POk v r => match skip_ws r with [] => Some v | _ :: _ => None end
    | PErr => None
    | PFuel => None
    end.

(** [d.get(k)] on the [dict] of an object: the last binding wins. *)
Fixpoint dict_get (k : str) (members : list (str * json)) : option json :=
  match members with
  | [] => None
  | (k', v) :: rest =>
      match dict_get k rest with
      | Some v' => Some v'
      | None => if str_eqb k k' then Some v else None
      end
  end.

End Json.

Import Json.

(** A parse that had fuel left, and that consumed input when it succeeded. *)
Definition consumes (p : pres json) (s : str) : Prop :=
  p <> PFuel /\ forall v r, p = POk v r -> length r < length s.

(** ** Exceptions and results *)

Inductive exn : Type :=
| JSONDecodeError
| TypeError
| KeyError
| IndexError
| AttributeError
| HTTPException (status_code : Z) (detail : str)
| RequestError (message : str).

Inductive result (A : Type) : Type :=
| Ok (a : A)
| Raise (e : exn).
Arguments Ok {A} a.
Arguments Raise {A} e.

Definition bind {A B : Type} (r : result A) (k : A -> result B) : result B :=
  match r with
  | Ok a => k a
  | Raise e => Raise e
  end.

Notation "x <- r ;; k" := (bind r (fun x => k))
  (at level 61, r at next level, right associativity).

(** [try: body except Exception as e: handler(e)]; every exception of the
    model is an [Exception]. *)
Definition try_except {A : Type} (body : result A) (handler : exn -> result A)
  : result A :=
  match body with
  | Ok a => Ok a
  | Raise e => handler e
  end.

(** ** Python operations on decoded values *)

Definition str_eq_dec : forall a b : str, {a = b} + {a <> b} :=
  list_eq_dec N.eq_dec.

(** [len(d)] of the [dict] of an object: its distinct keys. *)
Definition dict_size (members : list (str * json)) : nat :=
  length (nodup str_eq_dec (List.map fst members)).

(** [k in x] *)
Definition py_contains (k : str) (x : json) : result bool :=
  match x with
  | JObj m => Ok (match dict_get k m with Some _ => true | None => false end)
  | JArr l =>
      Ok (existsb (fun v => match v with JStr s => str_eqb s k | _ => false end) l)
  | JStr s => Ok (contains k s)
  | JNull | JBool _ | JNum _ => Raise TypeError
  end.

(** [x[k]] for a [str] key [k] *)
Definition py_getitem (x : json) (k : str) : result json :=
  match x with
  | JObj m => match dict_get k m with Some v => Ok v | None => Raise KeyError end
  | _ => Raise TypeError
  end.

(** [len(x)] *)
Definition py_len (x : json) : result nat :=
  match x with
  | JStr s => Ok (length s)
  | JArr l => Ok (length l)
  | JObj m => Ok (dict_size m)
  | JNull | JBool _ | JNum _ => Raise TypeError
  end.

(** [x[0]] *)
Definition py_getitem0 (x : json) : result json :=
  match x with
  | JArr (v :: _) => Ok v
  | JStr (c :: _) => Ok (JStr [c])
  | JArr [] | JStr [] => Raise IndexError
  | JObj _ => Raise KeyError
  | JNull | JBool _ | JNum _ => Raise TypeError
  end.

(** [x.get(k, default)] *)
Definition py_get (x : json) (k : str) (default : json) : result json :=
  match x with
  | JObj m => Ok (match dict_get k m with Some v => v | None => default end)
  | _ => Raise AttributeError
  end.

(** [full_content += content], with [full_content] a [str] *)
Definition py_iadd (full_content : str) (content : json) : result str :=
  match content with
  | JStr s => Ok (full_content ++ s)
  | _ => Raise TypeError
  end.

(** ** The response of [client.post]

    The request is not streamed, so the body is in memory when [call_api]
    looks at it: [aiter_text] are the chunks that [response.aiter_text()]
    delivers and [text] is their concatenation.  The body is taken as UTF-8
    text without byte order mark, so that [response.content] is empty exactly
    when [response.text] is, and [response.json()] is [json.loads] of it.
    Bodies of another kind are outside the model: [response.json()] decodes
    the bytes of the body itself, so on a byte that is not UTF-8 it raises
    [UnicodeDecodeError], where [response.text] holds a replacement
    character, and it drops a byte order mark, which [response.text]
    keeps. *)

Record Response : Type := {
  status_code : Z;
  aiter_text : list str
}.

Definition text (r : Response) : str := concat (aiter_text r).

Definition content_is_empty (r : Response) : bool :=
  match text r with [] => true | _ :: _ => false end.

Definition response_json (r : Response) : option json := json_loads (text r).

(** ** [handle_stream_response]

    The [print] calls and the counter they report are left out, as are the
    [asyncio.sleep] calls, which yield control and do nothing else. *)

Definition data_prefix : str := u "data: ".
Definition done_line : str := u "data: [DONE]".
Definition done_frame : str := u "data: [DONE]" ++ [nl; nl].

(** [re.sub(r'^data:\s*data:', 'data:', line)].  The pattern is anchored and
    its second [data:] starts with a character that is not a space, so it
    matches exactly when [data:], then the longest run of spaces, then
    [data:] open the line. *)
Definition re_sub_double_prefix (line : str) : str :=
  if startswith (u "data:") line then
    let after := lstrip (skipn 5 line) in
    if startswith (u "data:") after then u "data:" ++ skipn 5 after else line
  else line.

(** The state of one run of [generate]: what it has yielded, and its local
    variable [done_processed]. *)
Record gen_state : Type := {
  yielded : list str;
  done_processed : bool
}.

(** [hasattr(generate, 'done_processed') and generate.done_processed].
    [generate] is the function object that [handle_stream_response] has just
    created; the assignment [done_processed = True] binds a local variable of
    the running generator, and no statement sets an attribute of the
    function, so [hasattr] answers [False]. *)
Definition generate_attr_done_processed : bool := false.

(** Lines 118 to 123: the text that is forwarded for a payload line. *)
Definition stream_content (line : str) : str :=
  if startswith (u "data: data:") line
  then re_sub_double_prefix line
  else line.

(** The body of the [while] loop of [generate].  Nothing in its [try] block
    raises. *)
Definition stream_body (st : gen_state) (line : str) : gen_state :=
  if startswith data_prefix line then
    if str_eqb line done_line then
      {| yielded := yielded st ++ [done_frame]; done_processed := true |}
    else if generate_attr_done_processed then st
    else
      {| yielded := yielded st ++ [stream_content line ++ [nl; nl]];
         done_processed := done_processed st |}
  else st.

(** The frames that [generate()] yields, in order. *)
Definition generate (response : Response) : list str :=
  yielded
    (fst (for_chunks stream_body
            {| yielded := []; done_processed := false |} []
            (aiter_text response))).

Inductive reply : Type :=
| StreamingResponse (media_type : str) (body : list str)
| Content (value : json).

Definition handle_stream_response (response : Response) : reply :=
  StreamingResponse (u "text/event-stream") (generate response).

(** ** [handle_non_stream_response] *)

(** [re.sub(r'^data:\s*', '', s)] *)
Definition re_sub_prefix (s : str) : str :=
  if startswith (u "data:") s then lstrip (skipn 5 s) else s.

(** Lines 201 to 213, run on a line with a doubled prefix once both layers
    are removed: [None] where the code says [continue]. *)
Definition brace_repair (json_str : str) : option str :=
  if str_eqb (strip json_str) (u "[DONE]") then None
  else
    let json_str :=
      if negb (startswith (u "{") (strip json_str))
      then u "{" ++ json_str else json_str in
    let json_str :=
      if negb (endswith (u "}") (strip json_str))
      then json_str ++ u "}" else json_str in
    Some json_str.

(** Lines 218 to 228, run on every line. *)
Definition finish_json_str (json_str : str) : option str :=
  let json_str := strip json_str in
  if endswith (u "]") json_str then
    if str_eqb json_str (u "DONE]") then None
    else if startswith (u "{") json_str && negb (endswith (u "}") json_str)
    then Some (json_str ++ u "}")
    else Some json_str
  else Some json_str.

(** Lines 193 to 228: the text handed to [json.loads], or [None] where the
    code says [continue]. *)
Definition repair_json_str (line : str) : option str :=
  let json_str := re_sub_prefix line in
  let repaired :=
    if startswith (u "data:") json_str
    then brace_repair (re_sub_prefix json_str)
    else Some json_str in
  match repaired with
  | None => None
  | Some json_str => finish_json_str json_str
  end.

(** The block that follows each of the two [json.loads] calls. *)
Definition add_delta (full_content : str) (data : json) : result str :=
  has <- py_contains (u "choices") data ;;
  if has then
    choices <- py_getitem data (u "choices") ;;
    n <- py_len choices ;;
    if Nat.ltb 0 n then
      first <- py_getitem0 choices ;;
      delta <- py_get first (u "delta") (JObj []) ;;
      content <- py_get delta (u "content") (JStr []) ;;
      py_iadd full_content content
    else Ok full_content
  else Ok full_content.

(** Lines 230 to 261: parse, and on [JSONDecodeError] retry from the first
    opening brace.  An exception that is not a [JSONDecodeError] leaves both
    inner handlers. *)
Definition parse_line (full_content : str) (json_str : str) : result str :=
  match json_loads json_str with
  | Some data => add_delta full_content data
  | None =>
      let json_str := strip json_str in
      let json_str :=
        if negb (startswith (u "{") json_str) then
          match from_first 123%N json_str with
          | Some from_brace => from_brace
          | None => json_str
          end
        else json_str in
      match json_loads json_str with
      | Some data => add_delta full_content data
      | None => Raise JSONDecodeError
      end
  end.

(** The body of the [while] loop; the state is [full_content].  Every
    exception of a line is caught, by the inner or by the outer handler, and
    both say [continue]. *)
Definition buffered_body (full_content : str) (line : str) : str :=
  if startswith data_prefix line then
    if str_eqb line done_line then full_content
    else
      match repair_json_str line with
      | None => full_content
      | Some json_str =>
          match parse_line full_content json_str with
          | Ok full_content' => full_content'
          | Raise _ => full_content
          end
      end
  else full_content.

Definition handle_non_stream_response (response : Response) : result json :=
  let '(full_content, _) :=
    for_chunks buffered_body [] [] (aiter_text response) in
  match full_content with
  | [] =>
      match response_json response with
      | None =>
          Raise (HTTPException 502
                   (u "Invalid JSON response from API: "
                    ++ firstn 200 (text response)))
      | Some data => py_get data (u "content") (JStr [])
      end
  | _ :: _ => Ok (JStr full_content)
  end.

(** ** [call_api]

    [post] is what [client.post] did: a response, or the exception of a
    failed transport.  [exn_str] is Python's [str(e)], which the libraries
    that define the exceptions decide. *)

Section CallApi.

Variable exn_str : exn -> str.

Definition call_api (post : result Response) (is_stream : bool)
  : result reply :=
  try_except
    (response <- post ;;
     if negb (Z.eqb (status_code response) 200) then
       Raise (HTTPException (status_code response) (text response))
     else if content_is_empty response then
       Raise (HTTPException 502 (u "Empty response from API"))
     else if is_stream then Ok (handle_stream_response response)
     else
       full_content <- handle_non_stream_response response ;;
       Ok (Content full_content))
    (fun e => Raise (HTTPException 500 (exn_str e))).

End CallApi.

(** ** Notions used by the statements *)

(** What one logical line makes [generate] yield. *)
Definition frames_of_line (line : str) : list str :=
  if startswith data_prefix line then
    if str_eqb line done_line then [done_frame]
    else [stream_content line ++ [nl; nl]]
  else [].

(** A payload line: a data line that is not the terminal marker. *)
Definition payload_line (line : str) : Prop :=
  startswith data_prefix line = true /\ line <> done_line /\ ~ In nl line.

(** The value of [full_content] when the loops of
    [handle_non_stream_response] are over. *)
Definition accumulated (response : Response) : str :=
  fst (for_chunks buffered_body [] [] (aiter_text response)).

(** The opening and the closing brace that [brace_repair] adds to a payload
    whose content, spaces apart, is [content]. *)
Definition opening (content : str) : str :=
  if startswith (u "{") content then [] else u "{".
Definition closing (content : str) : str :=
  if endswith (u "}") content then [] else u "}".

(** A character that a JSON string holds as it is: no control character,
    no double quote, no backslash. *)
Definition plain_char (c : N) : bool :=
  ((32 <=? c) && negb (c =? 34) && negb (c =? 92))%N.

Definition plain (s : str) : bool := forallb plain_char s.

(** The payload of a well-formed delta event for the fragment [s], and the
    upstream line that carries it. *)
Definition delta_payload (s : str) : str :=
  uq "{'choices':[{'delta':{'content':'" ++ s ++ uq "'}}]}".

Definition delta_line (s : str) : str := u "data: " ++ delta_payload s.

(** ** [models.py] *)

Module Models.

(** [MODEL_MAPPING]; the keys of the literal are distinct, so the [dict] is
    the list of its items. *)
Definition MODEL_MAPPING : list (str * str) :=
  [ (u "deepseek-r1-70b", u "deepseek70b");
    (u "deepseek-r1-turbo", u "deepseekr1turbo");
    (u "deepseek-r1-turbo-2", u "deepseekr1turbo2");
    (u "deepseek-r1-turbo-3", u "deepseekr1turbo3");
    (u "deepseek-ai/DeepSeek-R1-Turbo", u "deepseekr1turbo");
    (u "deepseek-ai/DeepSeek-V3-Turbo", u "deepseekv3turbo");
    (u "deepseek-v3-turbo", u "deepseekv3turbo");
    (u "deepseek-v3-turbo2", u "deepseekv3turbo2");
    (u "deepseek-v3-0324-3", u "deepseekv303243");
    (u "deepseek-v3-0324-2", u "deepseekv303242");
    (u "deepseek-v3-0324", u "deepseekv30324");
    (u "deepseek-r1-search", u "volcengine");
    (u "grok-3", u "grok3");
    (u "grok-3-search", u "grok3search");
    (u "grok-3-deepsearch", u "grok3deepsearch");
    (u "grok-3-reasoning", u "grok3reasoning");
    (u "qwen-32b", u "qwen32b");
    (u "qwq-32b", u "qwq32b") ].

Definition DEFAULT_MODEL : str := u "deepseek70b".

(** [d.get(k)] *)
Fixpoint mapping_get (k : str) (d : list (str * str)) : option str :=
  match d with
  | [] => None
  | (k', v) :: d' => if str_eqb k k' then Some v else mapping_get k d'
  end.

(** [s.lower()] on text whose letters are ASCII, as the keys of
    [MODEL_MAPPING] are. *)
Definition lower (s : str) : str :=
  List.map (fun c => if ((65 <=? c) && (c <=? 90))%N then (c + 32)%N else c) s.

(** An item of [AVAILABLE_MODELS]. *)
Record model : Type := {
  m_id : str;
  m_object : str;
  m_created : Z;
  m_owned_by : str;
  m_permission : list str;
  m_root : str;
  m_parent : option str
}.

(** [enumerate(l)], counting from [idx]. *)
Fixpoint enumerate_from {A : Type} (idx : Z) (l : list A) : list (Z * A) :=
  match l with
  | [] => []
  | x :: l' => (idx, x) :: enumerate_from (idx + 1) l'
  end.

(** The list comprehension of lines 27 to 40.  [MODEL_MAPPING[model_id]] is
    read for a key of the mapping and cannot raise. *)
Definition AVAILABLE_MODELS : list model :=
  List.map
    (fun '(idx, model_id) =>
       {| m_id := model_id;
          m_object := u "model";
          m_created := 1677650000 + idx;
          m_owned_by :=
            if contains (u "deepseek") (lower model_id) then u "deepseek"
            else if contains (u "grok") (lower model_id) then u "xai"
            else u "alibaba";
          m_permission := [];
          m_root := match mapping_get model_id MODEL_MAPPING with
                    | Some r => r
                    | None => []
                    end;
          m_parent := None |})
    (enumerate_from 0 (List.map fst MODEL_MAPPING)).

(** [get_model_list()]: the members [object] and [data] of the answer. *)
Definition get_model_list : str * list model :=
  (u "list", AVAILABLE_MODELS).

(** [map_model_name(model_name)]; [None] and the empty string are the falsy
    names. *)
Definition map_model_name (model_name : option str) : option str :=
  match model_name with
  | None => None
  | Some [] => Some []
  | Some name =>
      Some (match mapping_get name MODEL_MAPPING with
            | Some mapped => mapped
            | None => name
            end)
  end.

End Models.

(** ** Facts on [str] *)

Lemma str_eqb_eq (a b : str) : str_eqb a b = true <-> a = b.
Proof.
  revert b; induction a as [|x a IH]; intros [|y b]; simpl; split;
    try congruence; try reflexivity.
  - intros H; apply andb_true_iff in H as [H1 H2].
    apply N.eqb_eq in H1; apply IH in H2; congruence.
  - intros H; injection H as -> ->.
    rewrite N.eqb_refl; simpl; now apply IH.
Qed.

Lemma str_eqb_refl (a : str) : str_eqb a a = true.
Proof. now apply str_eqb_eq. Qed.

Lemma str_eqb_neq (a b : str) : str_eqb a b = false <-> a <> b.
Proof.
  split.
  - intros H E; apply str_eqb_eq in E; congruence.
  - intros H; destruct (str_eqb a b) eqn:E; [|reflexivity].
    apply str_eqb_eq in E; contradiction.
Qed.

Lemma startswith_app (p s : str) : startswith p (p ++ s) = true.
Proof.
  induction p as [|x p IH]; simpl; [reflexivity|].
  now rewrite N.eqb_refl.
Qed.

Lemma startswith_inv (p s : str) :
  startswith p s = true -> exists t, s = p ++ t.
Proof.
  revert s; induction p as [|x p IH]; intros s H; simpl in *.
  - now exists s.
  - destruct s as [|y s]; [discriminate|].
    apply andb_true_iff in H as [H1 H2].
    apply N.eqb_eq in H1; subst y.
    destruct (IH _ H2) as [t ->]; now exists t.
Qed.

Lemma split_once_none (s : str) : split_once s = None <-> ~ In nl s.
Proof.
  induction s as [|c t IH]; simpl.
  - tauto.
  - destruct (N.eqb c nl) eqn:E.
    + apply N.eqb_eq in E; subst; split; [discriminate|intros H; exfalso; auto].
    + apply N.eqb_neq in E.
      destruct (split_once t) as [[l r]|].
      * split; [discriminate|].
        intros H; exfalso; apply H; right.
        destruct (in_dec N.eq_dec nl t) as [i|n]; [exact i|].
        apply IH in n; discriminate.
      * split; [|reflexivity].
        intros _ [H|H]; [congruence|]. now apply IH.
Qed.

Lemma split_once_some (s l r : str) :
  split_once s = Some (l, r) -> s = l ++ nl :: r /\ ~ In nl l.
Proof.
  revert l r; induction s as [|c t IH]; simpl; intros l r H; [discriminate|].
  destruct (N.eqb c nl) eqn:E.
  - apply N.eqb_eq in E; subst c; injection H as <- <-; simpl; auto.
  - apply N.eqb_neq in E.
    destruct (split_once t) as [[l' r']|]; [|discriminate].
    injection H as <- <-.
    destruct (IH _ _ eq_refl) as [-> Hn]; split; [reflexivity|].
    intros [H|H]; [congruence|auto].
Qed.

Lemma split_once_app (l r : str) :
  ~ In nl l -> split_once (l ++ nl :: r) = Some (l, r).
Proof.
  induction l as [|c l IH]; simpl; intros H.
  - reflexivity.
  - destruct (N.eqb c nl) eqn:E.
    + apply N.eqb_eq in E; exfalso; auto.
    + rewrite IH; auto.
Qed.

Lemma split_once_app_r (s l r c : str) :
  split_once s = Some (l, r) -> split_once (s ++ c) = Some (l, r ++ c).
Proof.
  intros H; apply split_once_some in H as [-> Hn].
  rewrite <- app_assoc; simpl; now apply split_once_app.
Qed.

(** ** Facts on the line reassembler *)

Section ReassemblyFacts.

Variable St : Type.
Variable body : St -> str -> St.

Lemma split_once_length (s l r : str) :
  split_once s = Some (l, r) -> length r < length s.
Proof.
  intros H; apply split_once_some in H as [-> _].
  rewrite length_app; simpl; lia.
Qed.

Lemma while_fuel_stable (f1 f2 : nat) (st : St) (b : str) :
  length b <= f1 -> length b <= f2 ->
  while_fuel body f1 st b = while_fuel body f2 st b.
Proof.
  revert f2 st b; induction f1 as [|f1 IH]; intros f2 st b H1 H2.
  - destruct b; [|simpl in H1; lia].
    destruct f2; reflexivity.
  - destruct f2 as [|f2].
    + destruct b; [reflexivity|simpl in H2; lia].
    + simpl. destruct (split_once b) as [[l r]|] eqn:E; [|reflexivity].
      apply split_once_length in E. apply IH; lia.
Qed.

(** The loop stops because its test fails, not because fuel ran out. *)
Lemma while_fuel_exit (f : nat) (st : St) (b : str) :
  length b <= f -> split_once (snd (while_fuel body f st b)) = None.
Proof.
  revert st b; induction f as [|f IH]; intros st b H.
  - destruct b; [reflexivity|simpl in H; lia].
  - simpl. destruct (split_once b) as [[l r]|] eqn:E; [|exact E].
    apply split_once_length in E. apply IH; lia.
Qed.

Lemma while_newline_eq (st : St) (b : str) :
  while_newline body st b =
  match split_once b with
  | Some (line, rest) => while_newline body (body st line) rest
  | None => (st, b)
  end.
Proof.
  unfold while_newline. destruct b as [|c b]; [reflexivity|].
  cbn [length while_fuel].
  destruct (split_once (c :: b)) as [[l r]|] eqn:E; [|reflexivity].
  apply split_once_length in E. apply while_fuel_stable; simpl in *; lia.
Qed.

Lemma while_newline_no_nl (st : St) (b : str) :
  ~ In nl b -> while_newline body st b = (st, b).
Proof.
  intros H; rewrite while_newline_eq.
  apply split_once_none in H; now rewrite H.
Qed.

Lemma while_newline_line (st : St) (l r : str) :
  ~ In nl l ->
  while_newline body st (l ++ nl :: r) = while_newline body (body st l) r.
Proof.
  intros H; rewrite while_newline_eq, split_once_app; auto.
Qed.

Lemma while_newline_exit (st : St) (b : str) :
  ~ In nl (snd (while_newline body st b)).
Proof.
  apply split_once_none, while_fuel_exit; lia.
Qed.

(** Feeding [s ++ c] at once is feeding [s], then adding [c] to what is left. *)
Lemma while_newline_app (st : St) (s c : str) :
  while_newline body st (s ++ c) =
  let '(st', b') := while_newline body st s in while_newline body st' (b' ++ c).
Proof.
  remember (length s) as n eqn:Hn.
  revert st s Hn; induction n as [n IH] using lt_wf_ind; intros st s Hn.
  rewrite (while_newline_eq st s).
  destruct (split_once s) as [[l r]|] eqn:E.
  - rewrite while_newline_eq, (split_once_app_r _ _ _ c E).
    apply (IH (length r)); [|reflexivity].
    apply split_once_length in E; lia.
  - reflexivity.
Qed.

Lemma for_chunks_concat (chunks : list str) (st : St) (b : str) :
  (let '(st', b') := while_newline body st b in for_chunks body st' b' chunks)
  = while_newline body st (b ++ concat chunks).
Proof.
  revert st b; induction chunks as [|c cs IH]; intros st b.
  - simpl. rewrite app_nil_r. now destruct (while_newline body st b).
  - simpl. rewrite app_assoc, <- IH.
    rewrite (while_newline_app st b c).
    now destruct (while_newline body st b).
Qed.

(** Splitting into chunks is invisible: the whole text could be fed at once. *)
Lemma for_chunks_whole (chunks : list str) (st : St) :
  for_chunks body st [] chunks = while_newline body st (concat chunks).
Proof.
  pose proof (for_chunks_concat chunks st []) as H.
  change (while_newline body st []) with (st, @nil N) in H. exact H.
Qed.

Lemma while_newline_unlines (ls : list str) (tail : str) (st : St) :
  Forall (fun l => ~ In nl l) ls -> ~ In nl tail ->
  while_newline body st (unlines ls ++ tail) = (fold_left body ls st, tail).
Proof.
  intros Hls Ht; revert st; induction Hls as [|l ls Hl _ IH]; intros st.
  - simpl. now apply while_newline_no_nl.
  - unfold unlines; simpl. rewrite <- !app_assoc; simpl.
    rewrite while_newline_line by exact Hl. apply IH.
Qed.

End ReassemblyFacts.

(** Every text is, in one way only, newline-terminated lines and a tail. *)
Lemma unlines_decompose (s : str) :
  exists ls tail, s = unlines ls ++ tail /\
                  Forall (fun l => ~ In nl l) ls /\ ~ In nl tail.
Proof.
  remember (length s) as n eqn:Hn.
  revert s Hn; induction n as [n IH] using lt_wf_ind; intros s Hn.
  destruct (split_once s) as [[l r]|] eqn:E.
  - pose proof (split_once_length _ _ _ E) as Hlen.
    apply split_once_some in E as [-> Hl].
    destruct (IH (length r) ltac:(lia) r eq_refl) as (ls & tail & -> & Hls & Ht).
    exists (l :: ls), tail; repeat split; auto.
    unfold unlines; simpl. now rewrite <- !app_assoc.
  - exists [], s; repeat split; auto. now apply split_once_none.
Qed.

Lemma fold_record (ls seen : list str) :
  fold_left record_line ls seen = seen ++ ls.
Proof.
  revert seen; induction ls as [|l ls IH]; intros seen; simpl.
  - now rewrite app_nil_r.
  - rewrite IH. unfold record_line. now rewrite <- app_assoc.
Qed.

Lemma reassemble_unlines (chunks : list str) (ls : list str) (tail : str) :
  concat chunks = unlines ls ++ tail ->
  Forall (fun l => ~ In nl l) ls -> ~ In nl tail ->
  reassemble chunks = (ls, tail).
Proof.
  intros E Hls Ht. unfold reassemble.
  rewrite for_chunks_whole, E, while_newline_unlines by assumption.
  now rewrite fold_record.
Qed.

(** Whatever the body, it is run on the reassembled lines, in order. *)
Lemma for_chunks_reassemble St (body : St -> str -> St) (st : St)
      (chunks : list str) :
  for_chunks body st [] chunks =
  (fold_left body (fst (reassemble chunks)) st, snd (reassemble chunks)).
Proof.
  destruct (unlines_decompose (concat chunks)) as (ls & tail & E & Hls & Ht).
  rewrite (reassemble_unlines chunks ls tail E Hls Ht); simpl.
  rewrite for_chunks_whole, E. now apply while_newline_unlines.
Qed.

Lemma unlines_nil_or_nl (ls : list str) :
  unlines ls = [] \/ exists p, unlines ls = p ++ [nl].
Proof.
  induction ls as [|l ls IH] using rev_ind; [now left|right].
  unfold unlines. rewrite map_app, concat_app; simpl.
  rewrite app_nil_r, app_assoc. eauto.
Qed.

(** ** The decoder never runs out of fuel *)

Lemma skip_ws_length (s : str) : length (skip_ws s) <= length s.
Proof.
  induction s as [|c s IH]; simpl; [lia|].
  destruct (json_ws c); simpl; lia.
Qed.

Lemma hex4_length (s t : str) (c : N) :
  hex4 s = Some (c, t) -> length s = 4 + length t.
Proof.
  unfold hex4. destruct s as [|a [|b [|c' [|d s]]]]; try discriminate.
  destruct (hexval a), (hexval b), (hexval c'), (hexval d); try discriminate.
  intros H; injection H as _ <-; reflexivity.
Qed.

Lemma startswith_skipn (p s : str) :
  startswith p s = true -> length s = length p + length (skipn (length p) s).
Proof.
  intros H; apply startswith_inv in H as [t ->].
  rewrite skipn_app, skipn_all, Nat.sub_diag, length_app; simpl; lia.
Qed.

Lemma scanstring_fuel_enough (f : nat) (s acc : str) :
  length s < f ->
  scanstring_fuel f s acc <> PFuel /\
  forall k r, scanstring_fuel f s acc = POk k r -> length r < length s.
Proof.
  revert s acc; induction f as [|f IH]; intros s acc Hf.
  - lia.
  - destruct s as [|c t]; [simpl; split; discriminate|].
    simpl in Hf. cbn [scanstring_fuel].
    destruct (c =? 34)%N.
    { split; [discriminate|]. intros k r H; injection H as _ <-; simpl; lia. }
    destruct (c =? 92)%N.
    2:{ destruct (c <=? 31)%N; [split; discriminate|].
        destruct (IH t (c :: acc) ltac:(lia)) as [H1 H2].
        split; [exact H1|]. intros k r H; apply H2 in H; simpl; lia. }
    destruct t as [|e t']; [split; discriminate|]. simpl in Hf.
    destruct (e =? 117)%N.
    2:{ destruct (unescape e); [|split; discriminate].
        destruct (IH t' (n :: acc) ltac:(lia)) as [H1 H2].
        split; [exact H1|]. intros k r H; apply H2 in H; simpl; lia. }
    destruct (hex4 t') as [[c1 t1]|] eqn:E1; [|split; discriminate].
    apply hex4_length in E1.
    assert (Hdef : scanstring_fuel f t1 (c1 :: acc) <> PFuel /\
                   forall k r, scanstring_fuel f t1 (c1 :: acc) = POk k r ->
                               length r < length (c :: e :: t')).
    { destruct (IH t1 (c1 :: acc) ltac:(lia)) as [H1 H2].
      split; [exact H1|]. intros k r H; apply H2 in H; simpl; lia. }
    destruct (is_high_surrogate c1 && startswith [92; 117]%N t1) eqn:E2;
      [|exact Hdef].
    apply andb_true_iff in E2 as [_ E2]. apply startswith_skipn in E2.
    cbn [length] in E2.
    destruct (hex4 (skipn 2 t1)) as [[c2 t2]|] eqn:E3; [|split; discriminate].
    apply hex4_length in E3.
    destruct (is_low_surrogate c2); [|exact Hdef].
    destruct (IH t2 (join_surrogates c1 c2 :: acc) ltac:(lia)) as [H1 H2].
    split; [exact H1|]. intros k r H; apply H2 in H; simpl; lia.
Qed.

Lemma scanstring_enough (s : str) :
  scanstring s <> PFuel /\
  forall k r, scanstring s = POk k r -> length r < length s.
Proof. apply scanstring_fuel_enough; lia. Qed.

Lemma span_digits_length (s : str) :
  length (snd (span_digits s)) <= length s.
Proof.
  induction s as [|c s IH]; simpl; [lia|].
  destruct (is_digit c); [|simpl; lia].
  destruct (span_digits s); simpl in *; lia.
Qed.

Ltac span_bound :=
  repeat match goal with
         | |- context [span_digits ?x] =>
             let H := fresh "Hsp" in
             pose proof (span_digits_length x) as H;
             destruct (span_digits x) as [[|? ?] ?]; simpl in H
         end.

Lemma match_number_length (s lit r : str) :
  match_number s = Some (lit, r) -> length r < length s.
Proof.
  unfold match_number.
  assert (Hexp : forall s3 ex s4,
    match s3 with
    | e :: rest =>
        if ((e =? 101) || (e =? 69))%N then
          let '(sg, rest') :=
            match rest with
            | c' :: r' =>
                if ((c' =? 43) || (c' =? 45))%N then ([c'], r') else ([], rest)
            | [] => ([], rest)
            end in
          match span_digits rest' with
          | ([], _) => ([], s3)
          | (d, r) => (e :: sg ++ d, r)
          end
        else ([], s3)
    | [] => ([], s3)
    end = (ex, s4) -> length s4 <= length s3).
  { intros s3 ex s4. destruct s3 as [|e rest]; [intros H; injection H as _ <-; lia|].
    destruct ((e =? 101) || (e =? 69))%N; [|intros H; injection H as _ <-; lia].
    destruct rest as [|c' r']; [simpl; intros H; injection H as _ <-; simpl; lia|].
    destruct ((c' =? 43) || (c' =? 45))%N; span_bound; cbv beta iota zeta;
      intros H; injection H as _ <-; simpl in *; lia. }
  assert (Hfrac : forall s2 fr s3,
    match s2 with
    | dot :: rest =>
        if (dot =? 46)%N then
          match span_digits rest with
          | ([], _) => ([], s2)
          | (d, r) => (dot :: d, r)
          end
        else ([], s2)
    | [] => ([], s2)
    end = (fr, s3) -> length s3 <= length s2).
  { intros s2 fr s3. destruct s2 as [|dot rest]; [intros H; injection H as _ <-; lia|].
    destruct (dot =? 46)%N; span_bound; cbv beta iota zeta;
      intros H; injection H as _ <-; simpl in *; lia. }
  assert (Hint : forall c t ip s2,
    (if (c =? 48)%N then Some ([c], t)
     else if is_digit c then let '(d, r) := span_digits t in Some (c :: d, r)
     else None) = Some (ip, s2) -> length s2 <= length t).
  { intros c t ip s2. destruct (c =? 48)%N; [intros H; injection H as _ <-; lia|].
    destruct (is_digit c); [|discriminate]. span_bound; cbv beta iota zeta;
      intros H; injection H as _ <-; simpl in *; lia. }
  destruct (match s with
            | c :: t => if (c =? 45)%N then ([c], t) else ([], s)
            | [] => ([], s)
            end) as [sign s1] eqn:Es.
  assert (Hs1 : length s1 <= length s).
  { destruct s as [|c t]; [injection Es as _ <-; lia|].
    destruct (c =? 45)%N; injection Es as _ <-; simpl; lia. }
  destruct s1 as [|c t]; [discriminate|].
  match goal with
  | |- context [match ?X with Some _ => _ | None => _ end] =>
      destruct X as [[ip s2]|] eqn:Ei; [|discriminate]
  end.
  apply Hint in Ei.
  match goal with
  | |- context [let '(frac, s3) := ?X in _] =>
      destruct X as [fr s3] eqn:Ef
  end.
  apply Hfrac in Ef.
  match goal with
  | |- context [let '(ex, s4) := ?X in _] =>
      destruct X as [ex s4] eqn:Ee
  end.
  apply Hexp in Ee.
  intros H; injection H as _ <-. simpl in Hs1. lia.
Qed.

Lemma consumes_err (s : str) : consumes PErr s.
Proof. split; discriminate. Qed.

Lemma consumes_ok (v : json) (r s : str) :
  length r < length s -> consumes (POk v r) s.
Proof.
  intros H; split; [discriminate|].
  intros v' r' E; injection E as _ <-; exact H.
Qed.

Lemma consumes_weaken (p : pres json) (s s' : str) :
  consumes p s -> length s <= length s' -> consumes p s'.
Proof.
  intros [H1 H2] Hl; split; [exact H1|].
  intros v r E; apply H2 in E; lia.
Qed.

Lemma consumes_literal (lit : str) (v : json) (s : str) :
  0 < length lit -> startswith lit s = true ->
  consumes (POk v (skipn (length lit) s)) s.
Proof.
  intros Hp H; apply startswith_skipn in H. apply consumes_ok; lia.
Qed.

Lemma scan_fuel_enough (fuel : nat) :
  (forall s, 2 * length s < fuel -> consumes (scan_once fuel s) s) /\
  (forall s acc, 2 * length s < fuel ->
                 consumes (parse_members fuel s acc) s) /\
  (forall s acc, 2 * length s + 1 < fuel ->
                 consumes (parse_items fuel s acc) s).
Proof.
  induction fuel as [|f (IHs & IHm & IHi)]; [split; [|split]; intros; lia|].
  split; [|split].
  - (* scan_once *)
    intros s Hf. destruct s as [|c t]; [apply consumes_err|].
    cbn [scan_once]. cbn [length] in Hf.
    destruct (c =? 34)%N.
    { destruct (scanstring_enough t) as [H1 H2].
      destruct (scanstring t) as [k r| |] eqn:E;
        [|apply consumes_err|congruence].
      apply consumes_ok. specialize (H2 _ _ eq_refl). simpl; lia. }
    destruct (c =? 123)%N.
    { pose proof (skip_ws_length t) as Hw.
      destruct (skip_ws t) as [|c' r]; [apply consumes_err|].
      cbn [length] in Hw.
      destruct (c' =? 125)%N; [apply consumes_ok; simpl; lia|].
      apply consumes_weaken with (s := c' :: r); [|simpl; lia].
      apply IHm; simpl; lia. }
    destruct (c =? 91)%N.
    { pose proof (skip_ws_length t) as Hw.
      destruct (skip_ws t) as [|c' r]; [apply consumes_err|].
      cbn [length] in Hw.
      destruct (c' =? 93)%N; [apply consumes_ok; simpl; lia|].
      apply consumes_weaken with (s := c' :: r); [|simpl; lia].
      apply IHi; simpl; lia. }
    destruct (startswith (u "null") (c :: t)) eqn:E1.
    { apply (consumes_literal (u "null")); [simpl; lia|exact E1]. }
    destruct (startswith (u "true") (c :: t)) eqn:E2.
    { apply (consumes_literal (u "true")); [simpl; lia|exact E2]. }
    destruct (startswith (u "false") (c :: t)) eqn:E3.
    { apply (consumes_literal (u "false")); [simpl; lia|exact E3]. }
    destruct (startswith (u "-Infinity") (c :: t)) eqn:E4.
    { apply (consumes_literal (u "-Infinity")); [simpl; lia|exact E4]. }
    destruct (match_number (c :: t)) as [[lit r]|] eqn:E5.
    { apply consumes_ok. now apply match_number_length in E5. }
    destruct (startswith (u "NaN") (c :: t)) eqn:E6.
    { apply (consumes_literal (u "NaN")); [simpl; lia|exact E6]. }
    destruct (startswith (u "Infinity") (c :: t)) eqn:E7.
    { apply (consumes_literal (u "Infinity")); [simpl; lia|exact E7]. }
    apply consumes_err.
  - (* parse_members *)
    intros s acc Hf. destruct s as [|c t]; [apply consumes_err|].
    cbn [parse_members]. cbn [length] in Hf.
    destruct (c =? 34)%N; [|apply consumes_err].
    destruct (scanstring_enough t) as [H1 H2].
    destruct (scanstring t) as [key r1| |] eqn:E;
      [|apply consumes_err|congruence].
    specialize (H2 _ _ eq_refl).
    pose proof (skip_ws_length r1) as Hw1.
    destruct (skip_ws r1) as [|c2 r2]; [apply consumes_err|].
    cbn [length] in Hw1.
    destruct (c2 =? 58)%N; [|apply consumes_err].
    pose proof (skip_ws_length r2) as Hw2.
    destruct (IHs (skip_ws r2) ltac:(lia)) as [H3 H4].
    destruct (scan_once f (skip_ws r2)) as [v r3| |];
      [|apply consumes_err|congruence].
    specialize (H4 _ _ eq_refl).
    pose proof (skip_ws_length r3) as Hw3.
    destruct (skip_ws r3) as [|c3 r4]; [apply consumes_err|].
    cbn [length] in Hw3.
    destruct (c3 =? 125)%N; [apply consumes_ok; simpl; lia|].
    destruct (c3 =? 44)%N; [|apply consumes_err].
    pose proof (skip_ws_length r4) as Hw4.
    apply consumes_weaken with (s := skip_ws r4); [|simpl; lia].
    apply IHm; lia.
  - (* parse_items *)
    intros s acc Hf. cbn [parse_items].
    destruct (IHs s ltac:(lia)) as [H3 H4].
    destruct (scan_once f s) as [v r1| |];
      [|apply consumes_err|congruence].
    specialize (H4 _ _ eq_refl).
    pose proof (skip_ws_length r1) as Hw1.
    destruct (skip_ws r1) as [|c r2]; [apply consumes_err|].
    cbn [length] in Hw1.
    destruct (c =? 93)%N; [apply consumes_ok; lia|].
    destruct (c =? 44)%N; [|apply consumes_err].
    pose proof (skip_ws_length r2) as Hw2.
    apply consumes_weaken with (s := skip_ws r2); [|lia].
    apply IHi; lia.
Qed.

(** [json_loads] answers [None] only for an input the decoder rejects. *)
Lemma json_loads_fuel (s : str) :
  scan_once (2 * length s + 2) (skip_ws s) <> PFuel.
Proof.
  pose proof (skip_ws_length s) as Hw.
  destruct (scan_fuel_enough (2 * length s + 2)) as (H & _ & _).
  apply (H (skip_ws s)); lia.
Qed.

(** ** The reassembler is blind to chunk boundaries *)

(** C6.  Two ways of cutting one upstream text into chunks (empty chunks and
    cuts inside a line included) give the loop body, whatever it is, the same
    logical lines in the same order and leave the same buffer; and after any
    chunks the text received so far is the lines seen, each with its newline,
    followed by the buffer, which holds no newline: the buffer is the suffix
    that follows the last newline received. *)
Theorem reassembly_chunk_invariance (chunks1 chunks2 : list str) :
  concat chunks1 = concat chunks2 ->
  reassemble chunks1 = reassemble chunks2 /\
  (forall (St : Type) (body : St -> str -> St) (st : St),
      for_chunks body st [] chunks1 = for_chunks body st [] chunks2 /\
      for_chunks body st [] chunks1 =
        (fold_left body (fst (reassemble chunks1)) st,
         snd (reassemble chunks1))) /\
  (forall chunks : list str,
      let '(lines, buffer) := reassemble chunks in
      concat chunks = unlines lines ++ buffer /\
      Forall (fun l => ~ In nl l) lines /\
      ~ In nl buffer /\
      (unlines lines = [] \/ exists p, unlines lines = p ++ [nl])).
Proof.
  intros E. split; [|split].
  - unfold reassemble. now rewrite !for_chunks_whole, E.
  - intros St body st. split.
    + now rewrite !for_chunks_whole, E.
    + apply for_chunks_reassemble.
  - intros chunks.
    destruct (unlines_decompose (concat chunks)) as (ls & tail & Ec & Hls & Ht).
    rewrite (reassemble_unlines chunks ls tail Ec Hls Ht).
    repeat split; auto using unlines_nil_or_nl.
Qed.

Lemma reassembly_chunk_invariance_witness :
  let whole := [u "data: a" ++ [nl] ++ u "data: b" ++ [nl] ++ u "dat"] in
  let cut := [u "da"; []; u "ta: a" ++ [nl] ++ u "data"; u ": b" ++ [nl; 100; 97]%N;
              u "t"] in
  reassemble whole = reassemble cut /\
  reassemble cut = ([u "data: a"; u "data: b"], u "dat").
Proof.
  split.
  - apply (reassembly_chunk_invariance
             [u "data: a" ++ [nl] ++ u "data: b" ++ [nl] ++ u "dat"]
             [u "da"; []; u "ta: a" ++ [nl] ++ u "data";
              u ": b" ++ [nl; 100; 97]%N; u "t"]).
    reflexivity.
  - reflexivity.
Defined.

(** ** Streaming mode *)

Lemma stream_body_yielded (st : gen_state) (line : str) :
  yielded (stream_body st line) = yielded st ++ frames_of_line line.
Proof.
  unfold stream_body, frames_of_line, generate_attr_done_processed.
  destruct (startswith data_prefix line); [|now rewrite app_nil_r].
  destruct (str_eqb line done_line); reflexivity.
Qed.

Lemma fold_stream_body (ls : list str) (st : gen_state) :
  yielded (fold_left stream_body ls st) =
  yielded st ++ flat_map frames_of_line ls.
Proof.
  revert st; induction ls as [|l ls IH]; intros st; simpl.
  - now rewrite app_nil_r.
  - now rewrite IH, stream_body_yielded, <- app_assoc.
Qed.

(** [generate] yields, line by line, the frames of the lines received. *)
Lemma generate_lines (sc : Z) (chunks : list str) (ls : list str) (tail : str) :
  concat chunks = unlines ls ++ tail ->
  Forall (fun l => ~ In nl l) ls -> ~ In nl tail ->
  generate {| status_code := sc; aiter_text := chunks |} =
  flat_map frames_of_line ls.
Proof.
  intros E Hls Ht. unfold generate; simpl.
  rewrite for_chunks_whole, E, while_newline_unlines by assumption.
  simpl. now rewrite fold_stream_body.
Qed.

Lemma frames_of_payload_line (l : str) :
  payload_line l -> frames_of_line l = [stream_content l ++ [nl; nl]].
Proof.
  intros (Hd & Hn & _). unfold frames_of_line. rewrite Hd.
  apply str_eqb_neq in Hn. now rewrite Hn.
Qed.

Lemma frames_of_payload_lines (ls : list str) :
  Forall payload_line ls ->
  flat_map frames_of_line ls =
  List.map (fun l => stream_content l ++ [nl; nl]) ls.
Proof.
  induction 1 as [|l ls Hl _ IH]; simpl; [reflexivity|].
  now rewrite (frames_of_payload_line l Hl), IH.
Qed.

Lemma payload_lines_no_nl (ls : list str) :
  Forall payload_line ls -> Forall (fun l => ~ In nl l) ls.
Proof. apply Forall_impl. now intros l (_ & _ & H). Qed.

Lemma done_line_no_nl : ~ In nl done_line.
Proof. vm_compute. intuition discriminate. Qed.

Lemma endswith_blank_line (s : str) : endswith [nl; nl] (s ++ [nl; nl]) = true.
Proof.
  unfold endswith. rewrite rev_app_distr. reflexivity.
Qed.

Lemma stream_content_verbatim (l : str) :
  startswith (u "data: data:") l = false -> stream_content l = l.
Proof. unfold stream_content. now intros ->. Qed.

(** C7.  An upstream stream of N payload lines and then the terminal marker,
    every line newline-terminated, is relayed, however it is cut into chunks,
    as N+1 frames: one per line, in the order of the lines, each ending in a
    blank line, the last one the terminal frame; a line without a doubled
    prefix is forwarded as it is. *)
Theorem streaming_passthrough (sc : Z) (lines : list str) (chunks : list str) :
  Forall payload_line lines ->
  concat chunks = unlines (lines ++ [done_line]) ->
  let frames := generate {| status_code := sc; aiter_text := chunks |} in
  frames = List.map (fun l => stream_content l ++ [nl; nl]) lines ++ [done_frame] /\
  length frames = length lines + 1 /\
  Forall (fun f => endswith [nl; nl] f = true) frames /\
  (forall i l, nth_error lines i = Some l ->
               startswith (u "data: data:") l = false ->
               nth_error frames i = Some (l ++ [nl; nl])).
Proof.
  intros Hl E frames.
  assert (Ef : frames =
          List.map (fun l => stream_content l ++ [nl; nl]) lines ++ [done_frame]).
  { unfold frames.
    rewrite (generate_lines sc chunks (lines ++ [done_line]) []).
    - rewrite flat_map_app, (frames_of_payload_lines lines Hl). reflexivity.
    - now rewrite app_nil_r.
    - apply Forall_app; split; [now apply payload_lines_no_nl|].
      constructor; [apply done_line_no_nl|constructor].
    - intros []. }
  split; [exact Ef|]. rewrite Ef. split; [|split].
  - rewrite length_app, length_map. reflexivity.
  - apply Forall_app; split.
    + apply Forall_map, Forall_forall. intros l _. apply endswith_blank_line.
    + constructor; [reflexivity|constructor].
  - intros i l Hi Hv.
    rewrite nth_error_app1.
    + rewrite nth_error_map, Hi; simpl. now rewrite stream_content_verbatim.
    + rewrite length_map. apply nth_error_Some. congruence.
Qed.

Lemma streaming_passthrough_witness :
  generate {| status_code := 200;
              aiter_text := [uq "data: {'a':1}" ++ [nl] ++ u "data: ";
                             uq "{'b':2}" ++ [nl] ++ u "data: [DONE]" ++ [nl]] |}
  = [uq "data: {'a':1}" ++ [nl; nl]; uq "data: {'b':2}" ++ [nl; nl];
     u "data: [DONE]" ++ [nl; nl]].
Proof.
  refine (proj1 (streaming_passthrough 200
            [uq "data: {'a':1}"; uq "data: {'b':2}"]
            [uq "data: {'a':1}" ++ [nl] ++ u "data: ";
             uq "{'b':2}" ++ [nl] ++ u "data: [DONE]" ++ [nl]] _ _)).
  - repeat constructor; try discriminate; vm_compute; intuition discriminate.
  - reflexivity.
Defined.

(** A marker that is not newline-terminated stays in the buffer and is not
    forwarded: the buffer left at the end of the stream is only reported. *)
Lemma unterminated_marker_not_forwarded :
  generate {| status_code := 200;
              aiter_text := [u "data: a" ++ [nl] ++ u "data: [DONE]"] |}
  = [u "data: a" ++ [nl; nl]].
Proof. reflexivity. Qed.

(** C10.  Forwarding the terminal marker does not close the relay: the lines
    that follow a [data: [DONE]] line are handled as the lines before it, so
    every payload line among them is forwarded as a frame after the terminal
    frame, and [generate] stops only when the chunks are used up. *)
Theorem relay_continues_after_done (sc : Z) (pre post : list str) (tail : str)
        (chunks : list str) :
  Forall (fun l => ~ In nl l) pre ->
  Forall (fun l => ~ In nl l) post ->
  ~ In nl tail ->
  concat chunks = unlines (pre ++ done_line :: post) ++ tail ->
  generate {| status_code := sc; aiter_text := chunks |} =
    flat_map frames_of_line pre ++ done_frame :: flat_map frames_of_line post /\
  (forall l, In l post -> startswith data_prefix l = true -> l <> done_line ->
             frames_of_line l = [stream_content l ++ [nl; nl]] /\
             In (stream_content l ++ [nl; nl]) (flat_map frames_of_line post)) /\
  (Forall payload_line post ->
   flat_map frames_of_line post =
   List.map (fun l => stream_content l ++ [nl; nl]) post).
Proof.
  intros Hpre Hpost Ht E. split; [|split].
  - rewrite (generate_lines sc chunks (pre ++ done_line :: post) tail E); auto.
    + now rewrite flat_map_app.
    + apply Forall_app; split; [exact Hpre|].
      constructor; [apply done_line_no_nl|exact Hpost].
  - intros l Hin Hd Hn.
    assert (Hf : frames_of_line l = [stream_content l ++ [nl; nl]]).
    { apply frames_of_payload_line. repeat split; auto.
      rewrite Forall_forall in Hpost. now apply Hpost. }
    split; [exact Hf|].
    apply in_flat_map. exists l. split; [exact Hin|]. rewrite Hf. now left.
  - apply frames_of_payload_lines.
Qed.

Lemma relay_continues_after_done_witness :
  generate {| status_code := 200;
              aiter_text := [u "data: one" ++ [nl] ++ u "data: [DONE]" ++ [nl]
                             ++ u "data: two" ++ [nl] ++ u "data: thr";
                             u "ee" ++ [nl] ++ u "left"] |}
  = [u "data: one" ++ [nl; nl]; u "data: [DONE]" ++ [nl; nl];
     u "data: two" ++ [nl; nl]; u "data: three" ++ [nl; nl]].
Proof.
  refine (proj1 (relay_continues_after_done 200
            [u "data: one"] [u "data: two"; u "data: three"] (u "left")
            [u "data: one" ++ [nl] ++ u "data: [DONE]" ++ [nl]
             ++ u "data: two" ++ [nl] ++ u "data: thr";
             u "ee" ++ [nl] ++ u "left"] _ _ _ _)).
  - repeat constructor; vm_compute; intuition discriminate.
  - repeat constructor; vm_compute; intuition discriminate.
  - vm_compute; intuition discriminate.
  - reflexivity.
Defined.

(** C3.  The terminal marker is forwarded each time it is received: a stream
    that holds [data: [DONE]] twice gives two terminal frames, not one. *)
Theorem repeated_done_forwarded_twice :
  generate {| status_code := 200;
              aiter_text := [u "data: [DONE]" ++ [nl] ++ u "data: [DONE]" ++ [nl]] |}
  = [done_frame; done_frame].
Proof. reflexivity. Qed.

(** Each terminal marker received gives one terminal frame. *)
Lemma done_frames_counted (sc : Z) (n : nat) :
  generate {| status_code := sc; aiter_text := [unlines (repeat done_line n)] |}
  = repeat done_frame n.
Proof.
  rewrite (generate_lines sc _ (repeat done_line n) []).
  - induction n as [|n IH]; simpl; [reflexivity|now rewrite IH].
  - simpl. now rewrite !app_nil_r.
  - apply Forall_forall. intros l Hl. apply repeat_spec in Hl; subst.
    apply done_line_no_nl.
  - intros [].
Qed.

(** ** Doubled prefixes *)

(** C9.  A line that opens with a doubled data prefix loses one layer of it
    and no more.  In streaming mode the line [data: data:R] is forwarded as
    the frame of [data:R].  In buffered mode the first substitution removes
    the expected prefix, leaving [data:R], and the second removes the
    duplicate, leaving what the line [data:R] carries: [R] without its leading
    spaces, which goes on to the repairs even when it opens with [data:]
    again.  The line [data: data: {"x":1}] becomes [data: {"x":1}]. *)
Theorem double_prefix_stripped_once (rest : str) :
  let line := u "data: data:" ++ rest in
  (forall st : gen_state,
      yielded (stream_body st line) =
      yielded st ++ [(u "data:" ++ rest) ++ [nl; nl]]) /\
  stream_content line = u "data:" ++ rest /\
  re_sub_prefix line = u "data:" ++ rest /\
  re_sub_prefix (re_sub_prefix line) = lstrip rest /\
  repair_json_str line =
    match brace_repair (lstrip rest) with
    | Some json_str => finish_json_str json_str
    | None => None
    end /\
  stream_content (uq "data: data: {'x':1}") = uq "data: {'x':1}" /\
  generate {| status_code := 200;
              aiter_text := [uq "data: data: {'x':1}" ++ [nl]] |}
    = [uq "data: {'x':1}" ++ [nl; nl]] /\
  repair_json_str (uq "data: data: {'x':1}") = Some (uq "{'x':1}") /\
  repair_json_str (uq "data: {'x':1}") = Some (uq "{'x':1}").
Proof.
  cbv zeta. repeat split; try reflexivity.
Qed.

(** One layer only: a tripled prefix is left doubled, in both modes. *)
Lemma triple_prefix_left_double :
  stream_content (u "data: data: data: x") = u "data: data: x" /\
  re_sub_prefix (re_sub_prefix (u "data: data: data: x")) = u "data: x".
Proof. split; reflexivity. Qed.

(** ** [call_api] and its blanket handler *)

Section CallApiFacts.

Variable exn_str : exn -> str.

(** An [HTTPException] raised inside the [try] block is an [Exception]: the
    handler of line 66 catches it and raises a new one with status 500. *)
Lemma call_api_rewraps (post : result Response) (is_stream : bool)
      (sc : Z) (detail : str) :
  call_api exn_str post is_stream = Raise (HTTPException sc detail) ->
  sc = 500%Z.
Proof.
  unfold call_api, try_except.
  match goal with |- context [match ?b with Ok _ => _ | Raise _ => _ end] =>
    destruct b end; [discriminate|].
  intros H; now injection H.
Qed.

Lemma call_api_non_200 (response : Response) (is_stream : bool) :
  status_code response <> 200%Z ->
  call_api exn_str (Ok response) is_stream =
  Raise (HTTPException 500
           (exn_str (HTTPException (status_code response) (text response)))).
Proof.
  intros H. unfold call_api, try_except, bind.
  apply Z.eqb_neq in H. now rewrite H.
Qed.

Lemma call_api_empty_body (is_stream : bool) (chunks : list str) :
  concat chunks = [] ->
  call_api exn_str (Ok {| status_code := 200; aiter_text := chunks |}) is_stream =
  Raise (HTTPException 500
           (exn_str (HTTPException 502 (u "Empty response from API")))).
Proof.
  intros H. unfold call_api, try_except, bind, content_is_empty, text; simpl.
  now rewrite H.
Qed.

End CallApiFacts.

(** C1.  An upstream answer with status 404 and body [not found] does not
    reach the caller with its own status: [call_api] raises status 500, and
    the upstream status and body survive only inside what [str] makes of the
    first exception. *)
Theorem upstream_status_rewrapped (exn_str : exn -> str) (is_stream : bool) :
  call_api exn_str
    (Ok {| status_code := 404; aiter_text := [u "not found"] |}) is_stream
  = Raise (HTTPException 500
             (exn_str (HTTPException 404 (u "not found")))).
Proof. reflexivity. Qed.

(** C2.  An upstream answer with status 200 and an empty body does not reach
    the caller as a 502: [call_api] raises status 500. *)
Theorem empty_body_rewrapped (exn_str : exn -> str) (is_stream : bool) :
  call_api exn_str (Ok {| status_code := 200; aiter_text := [] |}) is_stream
  = Raise (HTTPException 500
             (exn_str (HTTPException 502 (u "Empty response from API")))).
Proof. reflexivity. Qed.

(** ** Buffered mode *)

Lemma handle_non_stream_response_eq (response : Response) :
  handle_non_stream_response response =
  match accumulated response with
  | [] =>
      match response_json response with
      | None =>
          Raise (HTTPException 502
                   (u "Invalid JSON response from API: "
                    ++ firstn 200 (text response)))
      | Some data => py_get data (u "content") (JStr [])
      end
  | _ :: _ => Ok (JStr (accumulated response))
  end.
Proof.
  unfold handle_non_stream_response, accumulated.
  destruct (for_chunks buffered_body [] [] (aiter_text response)) as [full b].
  reflexivity.
Qed.

(** [full_content] is the fold of the loop body over the lines received. *)
Lemma accumulated_lines (sc : Z) (chunks : list str) (ls : list str) (tail : str) :
  concat chunks = unlines ls ++ tail ->
  Forall (fun l => ~ In nl l) ls -> ~ In nl tail ->
  accumulated {| status_code := sc; aiter_text := chunks |} =
  fold_left buffered_body ls [].
Proof.
  intros E Hls Ht. unfold accumulated; simpl.
  now rewrite for_chunks_whole, E, while_newline_unlines.
Qed.

(** When no line adds anything, nothing is accumulated. *)
Lemma no_fragment_accumulated (response : Response) :
  (forall full line, In line (fst (reassemble (aiter_text response))) ->
                     buffered_body full line = full) ->
  accumulated response = [].
Proof.
  intros H. unfold accumulated. rewrite for_chunks_reassemble; simpl.
  induction (fst (reassemble (aiter_text response))) as [|l ls IH]; simpl.
  - reflexivity.
  - rewrite H by now left. apply IH. intros full line Hin. apply H. now right.
Qed.

(** C8.  The three upstream lines of the end-to-end example, each
    newline-terminated and cut into chunks in any way, make
    [handle_non_stream_response] return [Hello]. *)
Theorem buffered_hello (sc : Z) (chunks : list str) :
  concat chunks =
    unlines [uq "data: {'choices':[{'delta':{'content':'Hel'}}]}";
             uq "data: {'choices':[{'delta':{'content':'lo'}}]}";
             u "data: [DONE]"] ->
  handle_non_stream_response {| status_code := sc; aiter_text := chunks |}
  = Ok (JStr (u "Hello")).
Proof.
  intros E. rewrite handle_non_stream_response_eq.
  rewrite (accumulated_lines sc chunks
             [uq "data: {'choices':[{'delta':{'content':'Hel'}}]}";
              uq "data: {'choices':[{'delta':{'content':'lo'}}]}";
              u "data: [DONE]"] []).
  - reflexivity.
  - now rewrite app_nil_r.
  - repeat constructor; vm_compute; intuition discriminate.
  - intros [].
Qed.

Lemma buffered_hello_witness :
  handle_non_stream_response
    {| status_code := 200;
       aiter_text := [uq "data: {'choices':[{'delta':{'con";
                      uq "tent':'Hel'}}]}" ++ [nl]
                      ++ uq "data: {'choices':[{'delta':{'content':'lo'}}]}"
                      ++ [nl] ++ u "data: [DONE]";
                      [nl]] |}
  = Ok (JStr (u "Hello")).
Proof.
  apply (buffered_hello 200
           [uq "data: {'choices':[{'delta':{'con";
            uq "tent':'Hel'}}]}" ++ [nl]
            ++ uq "data: {'choices':[{'delta':{'content':'lo'}}]}"
            ++ [nl] ++ u "data: [DONE]";
            [nl]]).
  reflexivity.
Defined.

(** The fallback of [handle_non_stream_response].  When the loops end with
    nothing accumulated (so, in particular, when no line gave a fragment),
    the whole body is parsed: if it is a JSON object the value of its
    [content] member is returned (the empty string when it has none); if it
    is not JSON the function raises [HTTPException] with status 502, whose
    detail ends with the first 200 characters of the body. *)
Lemma buffered_fallback (response : Response) :
  accumulated response = [] ->
  (forall members,
      response_json response = Some (JObj members) ->
      handle_non_stream_response response =
      Ok (match dict_get (u "content") members with
          | Some v => v
          | None => JStr []
          end)) /\
  (response_json response = None ->
   handle_non_stream_response response =
   Raise (HTTPException 502
            (u "Invalid JSON response from API: "
             ++ firstn 200 (text response)))) /\
  length (firstn 200 (text response)) <= 200.
Proof.
  intros H. rewrite handle_non_stream_response_eq, H. split; [|split].
  - intros members ->. reflexivity.
  - intros ->. reflexivity.
  - apply firstn_le_length.
Qed.

Lemma buffered_fallback_content :
  handle_non_stream_response
    {| status_code := 200; aiter_text := [uq "{'content': "; uq "'whole'}"] |}
  = Ok (JStr (u "whole")).
Proof.
  apply (proj1 (buffered_fallback
                  {| status_code := 200;
                     aiter_text := [uq "{'content': "; uq "'whole'}"] |}
                  eq_refl)
           [(u "content", JStr (u "whole"))]).
  reflexivity.
Qed.

(** The failure of the fallback, run on a body that is not JSON. *)
Lemma buffered_fallback_failure :
  handle_non_stream_response
    {| status_code := 200; aiter_text := [u "upstream is "; u "down"] |}
  = Raise (HTTPException 502
             (u "Invalid JSON response from API: upstream is down")).
Proof. reflexivity. Qed.

(** ** Brace repair *)

Lemma lstrip_idem (s : str) : lstrip (lstrip s) = lstrip s.
Proof.
  induction s as [|c s IH]; simpl; [reflexivity|].
  destruct (isspace c) eqn:E; [exact IH|]. simpl. now rewrite E.
Qed.

Lemma lstrip_head (s : str) :
  lstrip s = [] \/ exists c t, lstrip s = c :: t /\ isspace c = false.
Proof.
  induction s as [|c s IH]; simpl; [now left|].
  destruct (isspace c) eqn:E; [exact IH|]. right. now exists c, s.
Qed.

Lemma lstrip_app_nonspace (a : str) (x : N) :
  isspace x = false -> lstrip (a ++ [x]) = lstrip a ++ [x].
Proof.
  intros H. induction a as [|c a IH]; simpl; [now rewrite H|].
  destruct (isspace c); [exact IH|reflexivity].
Qed.

Lemma rstrip_cons_nonspace (x : N) (s : str) :
  isspace x = false -> rstrip (x :: s) = x :: rstrip s.
Proof.
  intros H. unfold rstrip; simpl.
  rewrite lstrip_app_nonspace by exact H.
  now rewrite rev_app_distr.
Qed.

Lemma rstrip_snoc_nonspace (s : str) (x : N) :
  isspace x = false -> rstrip (s ++ [x]) = s ++ [x].
Proof.
  intros H. unfold rstrip. rewrite rev_app_distr; simpl. rewrite H; simpl.
  now rewrite rev_involutive.
Qed.

Lemma strip_cons_nonspace (x : N) (s : str) :
  isspace x = false -> strip (x :: s) = x :: rstrip s.
Proof.
  intros H. unfold strip; simpl. rewrite H.
  now apply rstrip_cons_nonspace.
Qed.

Lemma strip_snoc_nonspace (s : str) (x : N) :
  isspace x = false -> strip (s ++ [x]) = lstrip s ++ [x].
Proof.
  intros H. unfold strip.
  rewrite lstrip_app_nonspace by exact H.
  now apply rstrip_snoc_nonspace.
Qed.

Lemma strip_lstrip (s : str) : strip (lstrip s) = rstrip (lstrip s).
Proof. unfold strip. now rewrite lstrip_idem. Qed.

Lemma endswith1 (c : N) (s : str) :
  endswith [c] s = match rev s with y :: _ => N.eqb c y | [] => false end.
Proof.
  unfold endswith; simpl. destruct (rev s); [reflexivity|].
  apply andb_true_r.
Qed.

Lemma endswith1_snoc (c x : N) (s : str) : endswith [c] (s ++ [x]) = N.eqb c x.
Proof. rewrite endswith1, rev_app_distr. reflexivity. Qed.

Lemma endswith1_cons (c x : N) (s : str) :
  s <> [] -> endswith [c] (x :: s) = endswith [c] s.
Proof.
  intros H. rewrite !endswith1; simpl.
  destruct (rev s) as [|y t] eqn:E.
  - apply (f_equal (@rev N)) in E. rewrite rev_involutive in E. contradiction.
  - reflexivity.
Qed.

Lemma endswith1_other (a b : N) (s : str) :
  endswith [a] s = true -> a <> b -> endswith [b] s = false.
Proof.
  rewrite !endswith1. destruct (rev s) as [|y t]; [discriminate|].
  intros H Hab. apply N.eqb_eq in H; subst y. now apply N.eqb_neq.
Qed.

(** What is left of [s] by [rstrip] opens [s]. *)
Lemma rstrip_prefix (s : str) : exists w, s = rstrip s ++ w.
Proof.
  unfold rstrip.
  assert (H : forall r : str, exists w, r = w ++ lstrip r).
  { induction r as [|c r [w IH]]; simpl; [now exists []|].
    destruct (isspace c); [|now exists []].
    exists (c :: w). simpl. now rewrite <- IH. }
  destruct (H (rev s)) as [w Hw]. exists (rev w).
  rewrite <- rev_app_distr, <- Hw. now rewrite rev_involutive.
Qed.

Lemma brace_repair_shape (rest : str) :
  let payload := lstrip rest in
  strip payload <> u "[DONE]" ->
  brace_repair payload =
    Some (opening (strip payload) ++ payload ++ closing (strip payload)) /\
  endswith (u "}")
    (strip (opening (strip payload) ++ payload ++ closing (strip payload))) = true /\
  startswith (u "{")
    (strip (opening (strip payload) ++ payload ++ closing (strip payload))) = true.
Proof.
  intros payload Hd. unfold brace_repair, opening, closing.
  apply str_eqb_neq in Hd. rewrite Hd.
  change (u "{") with [123%N]. change (u "}") with [125%N].
  assert (Hs : strip payload = rstrip payload) by apply strip_lstrip.
  destruct (startswith [123%N] (strip payload)) eqn:Eo; cbn [negb app].
  - (* the payload opens with a brace *)
    assert (Hp : exists t, payload = 123%N :: t).
    { destruct (rstrip_prefix payload) as [w Hw]. rewrite <- Hs in Hw.
      apply startswith_inv in Eo as [t Et]. rewrite Et in Hw.
      exists (t ++ w). exact Hw. }
    destruct Hp as [t Hp].
    destruct (endswith [125%N] (strip payload)) eqn:Ec; cbn [negb].
    + rewrite app_nil_r. repeat split; assumption.
    + split; [reflexivity|].
      rewrite strip_snoc_nonspace by reflexivity.
      split; [apply endswith1_snoc|].
      rewrite Hp. reflexivity.
  - (* a brace is put in front *)
    assert (E1 : strip (123%N :: payload) = 123%N :: rstrip payload)
      by now apply strip_cons_nonspace.
    assert (E2 : endswith [125%N] (strip (123%N :: payload)) =
                 endswith [125%N] (strip payload)).
    { rewrite E1, Hs. destruct (rstrip payload) as [|y t] eqn:Er.
      - reflexivity.
      - apply endswith1_cons. discriminate. }
    rewrite E2.
    destruct (endswith [125%N] (strip payload)) eqn:Ec; cbn [negb].
    + rewrite app_nil_r. split; [reflexivity|]. split; [congruence|].
      rewrite E1. reflexivity.
    + split; [reflexivity|].
      change (123%N :: payload ++ [125%N]) with ((123%N :: payload) ++ [125%N]).
      rewrite strip_snoc_nonspace by reflexivity.
      split; [apply endswith1_snoc|reflexivity].
Qed.

Lemma repair_json_str_doubled (rest : str) :
  repair_json_str (u "data: data:" ++ rest) =
  match brace_repair (lstrip rest) with
  | Some json_str => finish_json_str json_str
  | None => None
  end.
Proof. reflexivity. Qed.

Lemma finish_json_str_closed (json_str : str) :
  endswith (u "}") (strip json_str) = true ->
  finish_json_str json_str = Some (strip json_str).
Proof.
  intros H. unfold finish_json_str. change (u "]") with [93%N].
  rewrite (endswith1_other 125 93 (strip json_str) H); [reflexivity|discriminate].
Qed.

(** What lines 218 to 228 do with a payload, in terms of its content (the
    payload without the spaces around it): no opening brace is added, and a
    closing brace only behind a content from an opening brace to a closing
    bracket. *)
Lemma finish_json_str_spec (json_str : str) :
  finish_json_str json_str =
  if str_eqb (strip json_str) (u "DONE]") then None
  else if startswith (u "{") (strip json_str) && endswith (u "]") (strip json_str)
       then Some (strip json_str ++ u "}")
       else Some (strip json_str).
Proof.
  unfold finish_json_str.
  destruct (endswith (u "]") (strip json_str)) eqn:E.
  - destruct (str_eqb (strip json_str) (u "DONE]")); [reflexivity|].
    change (u "}") with [125%N].
    rewrite (endswith1_other 93 125 (strip json_str) E) by discriminate.
    reflexivity.
  - destruct (str_eqb (strip json_str) (u "DONE]")) eqn:Ed.
    + apply str_eqb_eq in Ed. rewrite Ed in E. discriminate.
    + now rewrite andb_false_r.
Qed.

(** The guard of line 196, whatever the spaces between the two prefixes. *)
Lemma repair_json_str_guard (line : str) :
  repair_json_str line =
  if startswith (u "data:") (re_sub_prefix line)
  then match brace_repair (re_sub_prefix (re_sub_prefix line)) with
       | Some json_str => finish_json_str json_str
       | None => None
       end
  else finish_json_str (re_sub_prefix line).
Proof.
  unfold repair_json_str.
  destruct (startswith (u "data:") (re_sub_prefix line)); reflexivity.
Qed.

Lemma brace_repair_done (payload : str) :
  strip payload = u "[DONE]" -> brace_repair payload = None.
Proof. intros H. unfold brace_repair. now rewrite H. Qed.

(** C4, as the code has it.  [json_str] is what follows the first [data:] of
    a line and its spaces.  When [json_str] starts with [data:] again (a
    doubled prefix, whatever the spaces between the two), the second prefix
    and its spaces are removed too and the braces of the payload left are
    repaired: with [content] the payload without the spaces around it, the
    line is skipped when [content] is [[DONE]], and otherwise the text handed
    to [json.loads] is the payload with one opening brace in front when
    [content] does not start with one, and one closing brace behind when
    [content] does not end with one, spaces around the whole removed; it
    starts and ends with a brace.  On every other line no opening brace is
    ever added: the text handed over is the content itself, with one closing
    brace behind it only when it goes from an opening brace to a closing
    bracket (and the content [DONE]] is skipped).  So the line
    [data: data: "choices":[{"delta":{"content":"hi"}}]] is repaired to valid
    JSON and gives the fragment [hi], and with a single prefix the same
    payload gives nothing. *)
Theorem brace_repair_doubled_prefix (line : str) :
  let json_str := re_sub_prefix line in
  (startswith (u "data:") json_str = true ->
   let payload := re_sub_prefix json_str in
   let content := strip payload in
   (content = u "[DONE]" -> repair_json_str line = None) /\
   (content <> u "[DONE]" ->
    exists repaired : str,
      repair_json_str line = Some repaired /\
      repaired = strip (opening content ++ payload ++ closing content) /\
      startswith (u "{") repaired = true /\
      endswith (u "}") repaired = true)) /\
  (startswith (u "data:") json_str = false ->
   let content := strip json_str in
   repair_json_str line =
     if str_eqb content (u "DONE]") then None
     else if startswith (u "{") content && endswith (u "]") content
          then Some (content ++ u "}")
          else Some content) /\
  repair_json_str (uq "data: data: 'choices':[{'delta':{'content':'hi'}}]")
    = Some (uq "{'choices':[{'delta':{'content':'hi'}}]}") /\
  json_loads (uq "{'choices':[{'delta':{'content':'hi'}}]}")
    = Some (JObj [(u "choices",
                   JArr [JObj [(u "delta",
                                JObj [(u "content", JStr (u "hi"))])]])]) /\
  buffered_body []
    (uq "data: data: 'choices':[{'delta':{'content':'hi'}}]") = u "hi" /\
  handle_non_stream_response
    {| status_code := 200;
       aiter_text :=
         [uq "data: data: 'choices':[{'delta':{'content':'hi'}}]" ++ [nl]] |}
    = Ok (JStr (u "hi")) /\
  repair_json_str (uq "data: 'choices':[{'delta':{'content':'hi'}}]")
    = Some (uq "'choices':[{'delta':{'content':'hi'}}]") /\
  buffered_body [] (uq "data: 'choices':[{'delta':{'content':'hi'}}]") = [].
Proof.
  intros json_str.
  split; [|split; [|repeat split; reflexivity]].
  - intros Hg payload content.
    assert (Hp : payload = lstrip (skipn 5 json_str)).
    { unfold payload, re_sub_prefix at 1. now rewrite Hg. }
    split.
    + intros Hd. rewrite repair_json_str_guard. fold json_str. rewrite Hg.
      fold payload. now rewrite (brace_repair_done payload Hd).
    + intros Hd. unfold content in Hd. rewrite Hp in Hd.
      destruct (brace_repair_shape (skipn 5 json_str) Hd) as (Hb & He & Hs).
      rewrite <- Hp in Hb, He, Hs. fold content in Hb, He, Hs.
      exists (strip (opening content ++ payload ++ closing content)).
      rewrite repair_json_str_guard. fold json_str. rewrite Hg.
      fold payload. rewrite Hb.
      rewrite finish_json_str_closed by exact He.
      repeat split; assumption.
  - intros Hg content.
    rewrite repair_json_str_guard. fold json_str. rewrite Hg.
    apply finish_json_str_spec.
Qed.

Lemma brace_repair_doubled_prefix_witness :
  exists repaired : str,
    repair_json_str (u "data:  data:" ++ uq " 'delta':{'content':'hi'}  ")
      = Some repaired /\
    repaired = uq "{'delta':{'content':'hi'}" /\
    startswith (u "{") repaired = true /\
    endswith (u "}") repaired = true.
Proof.
  refine (proj2 (proj1 (brace_repair_doubled_prefix
                          (u "data:  data:" ++ uq " 'delta':{'content':'hi'}  "))
                   _) _).
  - reflexivity.
  - vm_compute. discriminate.
Defined.

(** C4, as the claim has it, fails on a line with a single prefix: the
    payload ["choices":[{"delta":{"content":"hi"}}]] gets no brace, neither
    parse succeeds, the line gives no fragment, and with nothing accumulated
    the fallback fails on the body. *)
Lemma single_prefix_not_brace_repaired :
  let line := uq "data: 'choices':[{'delta':{'content':'hi'}}]" in
  repair_json_str line = Some (uq "'choices':[{'delta':{'content':'hi'}}]") /\
  repair_json_str line <> Some (uq "{'choices':[{'delta':{'content':'hi'}}]}") /\
  parse_line [] (uq "'choices':[{'delta':{'content':'hi'}}]")
    = Raise JSONDecodeError /\
  buffered_body [] line = [] /\
  buffered_body [] line <> u "hi" /\
  handle_non_stream_response
    {| status_code := 200; aiter_text := [line ++ [nl]] |}
    = Raise (HTTPException 502
               (u "Invalid JSON response from API: " ++ line ++ [nl])).
Proof.
  cbv zeta. repeat split; try reflexivity; vm_compute; discriminate.
Qed.

(** On a line with a single prefix only a closing brace is supplied, and only
    when the payload starts with a brace and ends with a bracket. *)
Lemma single_prefix_closing_only :
  repair_json_str (uq "data: {'choices':[{'delta':{'content':'hi'}}]")
    = Some (uq "{'choices':[{'delta':{'content':'hi'}}]}") /\
  buffered_body [] (uq "data: {'choices':[{'delta':{'content':'hi'}}]")
    = u "hi" /\
  repair_json_str (uq "data: {'a':1") = Some (uq "{'a':1").
Proof. repeat split; reflexivity. Qed.

(** ** The fallback failure seen from [call_api] *)

(** C5.  In buffered mode, on a body from which nothing is accumulated, the
    fallback returns the [content] member when the body is a JSON object;
    when the body is not JSON, [handle_non_stream_response] raises status 502
    with the start of the body, but that exception is raised inside the
    [try] block of [call_api], so the relay operation fails with status 500
    and not with 502. *)
Theorem fallback_failure_rewrapped (exn_str : exn -> str) :
  let bad := {| status_code := 200;
                aiter_text := [u "upstream is "; u "down"] |} in
  let good := {| status_code := 200;
                 aiter_text := [uq "{'content': "; uq "'whole'}"] |} in
  accumulated bad = [] /\
  handle_non_stream_response bad =
    Raise (HTTPException 502
             (u "Invalid JSON response from API: upstream is down")) /\
  call_api exn_str (Ok bad) false =
    Raise (HTTPException 500
             (exn_str (HTTPException 502
                         (u "Invalid JSON response from API: upstream is down")))) /\
  call_api exn_str (Ok good) false = Ok (Content (JStr (u "whole"))).
Proof. cbv zeta. repeat split; reflexivity. Qed.

(** ** More on [call_api] *)

(** X1.  [call_api] returns only for an upstream answer with status 200 and a
    body that is not empty: in streaming mode it then always returns the
    event-stream response over [generate], and in buffered mode it returns
    the value of [handle_non_stream_response] when that function returns. *)
Theorem call_api_returns (exn_str : exn -> str) (post : result Response)
        (is_stream : bool) (r : reply) :
  call_api exn_str post is_stream = Ok r <->
  exists response,
    post = Ok response /\
    status_code response = 200%Z /\
    text response <> [] /\
    (if is_stream
     then r = StreamingResponse (u "text/event-stream") (generate response)
     else exists v, handle_non_stream_response response = Ok v /\
                    r = Content v).
Proof.
  unfold call_api, try_except, bind, content_is_empty, handle_stream_response.
  split.
  - destruct post as [response|e]; [|discriminate].
    destruct (Z.eqb (status_code response) 200) eqn:Es; [|discriminate].
    cbn [negb]. apply Z.eqb_eq in Es.
    destruct (text response) as [|c t] eqn:Et; [discriminate|].
    destruct is_stream.
    + intros H; injection H as <-. exists response.
      repeat split; auto. rewrite Et; discriminate.
    + destruct (handle_non_stream_response response) as [v|e] eqn:Eh;
        [|discriminate].
      intros H; injection H as <-. exists response.
      repeat split; auto; [rewrite Et; discriminate|]. now exists v.
  - intros (response & -> & Es & Et & Hr).
    apply Z.eqb_eq in Es. rewrite Es. cbn [negb].
    destruct (text response) as [|c t]; [contradiction|].
    destruct is_stream; [now subst|].
    destruct Hr as (v & -> & ->). reflexivity.
Qed.

Lemma call_api_returns_witness :
  call_api (fun _ => [])
    (Ok {| status_code := 200; aiter_text := [u "data: hi" ++ [nl]] |}) true
  = Ok (StreamingResponse (u "text/event-stream") [u "data: hi" ++ [nl; nl]]).
Proof.
  apply (proj2 (call_api_returns (fun _ => [])
                  (Ok {| status_code := 200;
                         aiter_text := [u "data: hi" ++ [nl]] |})
                  true
                  (StreamingResponse (u "text/event-stream")
                     [u "data: hi" ++ [nl; nl]]))).
  exists {| status_code := 200; aiter_text := [u "data: hi" ++ [nl]] |}.
  repeat split. discriminate.
Defined.

(** X2.  Whatever goes wrong, [call_api] raises [HTTPException] with status
    500, whose detail is [str] of the first exception: that of the failed
    transport, the upstream status error, the empty-body error, or what
    [handle_non_stream_response] raised. *)
Theorem call_api_raises (exn_str : exn -> str) (post : result Response)
        (is_stream : bool) (e : exn) :
  call_api exn_str post is_stream = Raise e ->
  exists e0,
    e = HTTPException 500 (exn_str e0) /\
    (post = Raise e0 \/
     exists response,
       post = Ok response /\
       ((status_code response <> 200%Z /\
         e0 = HTTPException (status_code response) (text response)) \/
        (status_code response = 200%Z /\ text response = [] /\
         e0 = HTTPException 502 (u "Empty response from API")) \/
        (status_code response = 200%Z /\ text response <> [] /\
         is_stream = false /\
         handle_non_stream_response response = Raise e0))).
Proof.
  unfold call_api, try_except, bind, content_is_empty.
  destruct post as [response|e0].
  - destruct (Z.eqb (status_code response) 200) eqn:Es; cbn [negb].
    + apply Z.eqb_eq in Es.
      destruct (text response) as [|c t] eqn:Et.
      * intros H; injection H as <-. eexists; split; [reflexivity|].
        right. exists response. split; [reflexivity|]. right. left. auto.
      * destruct is_stream; [discriminate|].
        destruct (handle_non_stream_response response) as [v|e0] eqn:Eh;
          [discriminate|].
        intros H; injection H as <-. exists e0; split; [reflexivity|].
        right. exists response. split; [reflexivity|]. right. right.
        repeat split; auto. rewrite Et; discriminate.
    + apply Z.eqb_neq in Es.
      intros H; injection H as <-. eexists; split; [reflexivity|].
      right. exists response. split; [reflexivity|]. left. auto.
  - intros H; injection H as <-. exists e0. auto.
Qed.

Lemma call_api_raises_witness :
  exists e0,
    HTTPException 500 [] = HTTPException 500 ((fun _ => []) e0) /\
    (@Raise Response (RequestError (u "timed out")) = Raise e0 \/
     exists response,
       Raise (RequestError (u "timed out")) = Ok response /\
       ((status_code response <> 200%Z /\
         e0 = HTTPException (status_code response) (text response)) \/
        (status_code response = 200%Z /\ text response = [] /\
         e0 = HTTPException 502 (u "Empty response from API")) \/
        (status_code response = 200%Z /\ text response <> [] /\
         true = false /\
         handle_non_stream_response response = Raise e0))).
Proof.
  apply (call_api_raises (fun _ => [])
           (Raise (RequestError (u "timed out"))) true
           (HTTPException 500 [])).
  reflexivity.
Defined.

(** ** More on streaming mode *)

Lemma reassemble_decompose (chunks : list str) :
  concat chunks = unlines (fst (reassemble chunks)) ++ snd (reassemble chunks) /\
  Forall (fun l => ~ In nl l) (fst (reassemble chunks)) /\
  ~ In nl (snd (reassemble chunks)).
Proof.
  destruct (unlines_decompose (concat chunks)) as (ls & tail & E & Hls & Ht).
  rewrite (reassemble_unlines chunks ls tail E Hls Ht). simpl. auto.
Qed.

Lemma generate_reassemble (response : Response) :
  generate response =
  flat_map frames_of_line (fst (reassemble (aiter_text response))).
Proof.
  destruct response as [sc chunks]. simpl.
  destruct (reassemble_decompose chunks) as (E & Hls & Ht).
  exact (generate_lines sc chunks _ _ E Hls Ht).
Qed.

Lemma length_frames_of_lines (ls : list str) :
  length (flat_map frames_of_line ls) =
  length (filter (startswith data_prefix) ls).
Proof.
  induction ls as [|l ls IH]; [reflexivity|].
  cbn [flat_map filter]. rewrite length_app, IH. unfold frames_of_line.
  destruct (startswith data_prefix l); [|reflexivity].
  destruct (str_eqb l done_line); reflexivity.
Qed.

(** X3.  One line in, one event out: [generate] yields one frame for each
    logical line that starts with [data: ], in the order of the lines, and
    nothing for any other line (blank lines, comments, other fields). *)
Theorem generate_one_frame_per_data_line (response : Response) :
  let lines := fst (reassemble (aiter_text response)) in
  generate response = flat_map frames_of_line lines /\
  length (generate response) = length (filter (startswith data_prefix) lines) /\
  (forall l, startswith data_prefix l = false -> frames_of_line l = []) /\
  (forall l, startswith data_prefix l = true -> length (frames_of_line l) = 1).
Proof.
  cbv zeta. rewrite generate_reassemble. repeat split.
  - apply length_frames_of_lines.
  - intros l H. unfold frames_of_line. now rewrite H.
  - intros l H. unfold frames_of_line. rewrite H.
    destruct (str_eqb l done_line); reflexivity.
Qed.

Lemma lstrip_incl (s : str) (x : N) : In x (lstrip s) -> In x s.
Proof.
  induction s as [|c s IH]; simpl; [tauto|].
  destruct (isspace c); [intros H; right; auto|simpl; tauto].
Qed.

Lemma skipn_incl (n : nat) (s : str) (x : N) : In x (skipn n s) -> In x s.
Proof.
  intros H. rewrite <- (firstn_skipn n s). apply in_or_app. now right.
Qed.

Lemma stream_content_shape (l : str) :
  startswith data_prefix l = true -> ~ In nl l ->
  startswith (u "data:") (stream_content l) = true /\ ~ In nl (stream_content l).
Proof.
  intros Hd Hn.
  assert (H5 : startswith (u "data:") l = true).
  { apply startswith_inv in Hd as [t ->]. reflexivity. }
  unfold stream_content.
  destruct (startswith (u "data: data:") l); [|split; assumption].
  unfold re_sub_double_prefix. rewrite H5.
  destruct (startswith (u "data:") (lstrip (skipn 5 l))); [|split; assumption].
  split; [reflexivity|].
  intros H. apply in_app_or in H as [H|H].
  - vm_compute in H. intuition discriminate.
  - apply Hn. apply skipn_incl in H. apply lstrip_incl in H.
    apply skipn_incl in H. exact H.
Qed.

(** X4.  Every frame that [generate] yields is an event-stream frame: a text
    that starts with [data:] and holds no newline, followed by a blank
    line. *)
Theorem generate_frames_well_formed (response : Response) (frame : str) :
  In frame (generate response) ->
  exists content,
    frame = content ++ [nl; nl] /\
    startswith (u "data:") content = true /\
    ~ In nl content.
Proof.
  rewrite generate_reassemble. intros H.
  apply in_flat_map in H as (l & Hl & Hf).
  destruct (reassemble_decompose (aiter_text response)) as (_ & Hls & _).
  rewrite Forall_forall in Hls. specialize (Hls l Hl).
  unfold frames_of_line in Hf.
  destruct (startswith data_prefix l) eqn:Hd; [|contradiction].
  destruct (str_eqb l done_line).
  - destruct Hf as [<-|[]]. exists done_line. repeat split.
    apply done_line_no_nl.
  - destruct Hf as [<-|[]]. exists (stream_content l).
    destruct (stream_content_shape l Hd Hls). auto.
Qed.

Lemma generate_frames_well_formed_witness :
  exists content,
    u "data:x" ++ [nl; nl] = content ++ [nl; nl] /\
    startswith (u "data:") content = true /\
    ~ In nl content.
Proof.
  apply (generate_frames_well_formed
           {| status_code := 200;
              aiter_text := [u "data: data:x" ++ [nl]] |}
           (u "data:x" ++ [nl; nl])).
  left. reflexivity.
Defined.

Lemma accumulated_reassemble (response : Response) :
  accumulated response =
  fold_left buffered_body (fst (reassemble (aiter_text response))) [].
Proof.
  unfold accumulated. now rewrite for_chunks_reassemble.
Qed.

Lemma reassemble_tail (chunks : list str) (tail : str) :
  ~ In nl tail ->
  reassemble (chunks ++ [tail]) =
  (fst (reassemble chunks), snd (reassemble chunks) ++ tail).
Proof.
  intros Ht. destruct (reassemble_decompose chunks) as (E & Hls & Hb).
  apply reassemble_unlines; auto.
  - rewrite concat_app; simpl. now rewrite app_nil_r, E, app_assoc.
  - intros H. apply in_app_or in H as [H|H]; auto.
Qed.

(** X5.  Text that follows the last newline is never handled by the loops:
    a last chunk without a newline adds no frame in streaming mode and
    nothing to the content that the loops of buffered mode accumulate; it
    only lengthens the buffer that is left over.  So, whenever something was
    accumulated, [handle_non_stream_response] returns the same value with and
    without that chunk; only the fallback on the whole body, taken when
    nothing was accumulated, reads it. *)
Theorem unterminated_tail_dropped (sc : Z) (chunks : list str) (tail : str) :
  ~ In nl tail ->
  generate {| status_code := sc; aiter_text := chunks ++ [tail] |} =
    generate {| status_code := sc; aiter_text := chunks |} /\
  accumulated {| status_code := sc; aiter_text := chunks ++ [tail] |} =
    accumulated {| status_code := sc; aiter_text := chunks |} /\
  snd (reassemble (chunks ++ [tail])) = snd (reassemble chunks) ++ tail /\
  (accumulated {| status_code := sc; aiter_text := chunks |} <> [] ->
   handle_non_stream_response
     {| status_code := sc; aiter_text := chunks ++ [tail] |} =
   handle_non_stream_response {| status_code := sc; aiter_text := chunks |}).
Proof.
  intros Ht.
  assert (Ha : accumulated {| status_code := sc; aiter_text := chunks ++ [tail] |} =
               accumulated {| status_code := sc; aiter_text := chunks |}).
  { rewrite !accumulated_reassemble. simpl.
    now rewrite (reassemble_tail chunks tail Ht). }
  split; [|split; [exact Ha|split]].
  - rewrite !generate_reassemble. simpl.
    now rewrite (reassemble_tail chunks tail Ht).
  - now rewrite (reassemble_tail chunks tail Ht).
  - intros Hne. rewrite !handle_non_stream_response_eq, Ha.
    destruct (accumulated {| status_code := sc; aiter_text := chunks |});
      [contradiction|reflexivity].
Qed.

Lemma unterminated_tail_dropped_witness :
  handle_non_stream_response
    {| status_code := 200;
       aiter_text := [delta_line (u "a") ++ [nl]] ++ [delta_line (u "b")] |} =
  handle_non_stream_response
    {| status_code := 200; aiter_text := [delta_line (u "a") ++ [nl]] |}.
Proof.
  refine (proj2 (proj2 (proj2
            (unterminated_tail_dropped 200 [delta_line (u "a") ++ [nl]]
               (delta_line (u "b")) _))) _).
  - vm_compute. intuition discriminate.
  - vm_compute. discriminate.
Defined.

(** The fallback does read what follows the last newline. *)
Lemma fallback_reads_tail :
  handle_non_stream_response
    {| status_code := 200; aiter_text := [[nl]] ++ [uq "{'content':'x'}"] |}
  = Ok (JStr (u "x")).
Proof. reflexivity. Qed.

Lemma unlines_app (ls1 ls2 : list str) :
  unlines (ls1 ++ ls2) = unlines ls1 ++ unlines ls2.
Proof. unfold unlines. now rewrite map_app, concat_app. Qed.

(** Each line adds its own fragment to [full_content], whatever was
    accumulated before. *)
Lemma py_iadd_app (full : str) (content : json) :
  py_iadd full content =
  match py_iadd [] content with
  | Ok s => Ok (full ++ s)
  | Raise e => Raise e
  end.
Proof. destruct content; reflexivity. Qed.

Lemma add_delta_app (full : str) (data : json) :
  add_delta full data =
  match add_delta [] data with
  | Ok s => Ok (full ++ s)
  | Raise e => Raise e
  end.
Proof.
  unfold add_delta, bind.
  destruct (py_contains (u "choices") data) as [[|]|e];
    [|now rewrite app_nil_r|reflexivity].
  destruct (py_getitem data (u "choices")) as [choices|e]; [|reflexivity].
  destruct (py_len choices) as [n|e]; [|reflexivity].
  destruct (Nat.ltb 0 n); [|now rewrite app_nil_r].
  destruct (py_getitem0 choices) as [first|e]; [|reflexivity].
  destruct (py_get first (u "delta") (JObj [])) as [delta|e]; [|reflexivity].
  destruct (py_get delta (u "content") (JStr [])) as [content|e]; [|reflexivity].
  apply py_iadd_app.
Qed.

Lemma parse_line_app (full json_str : str) :
  parse_line full json_str =
  match parse_line [] json_str with
  | Ok s => Ok (full ++ s)
  | Raise e => Raise e
  end.
Proof.
  unfold parse_line.
  destruct (json_loads json_str) as [data|]; [apply add_delta_app|].
  match goal with |- context [json_loads ?x] => destruct (json_loads x) end;
    [apply add_delta_app|reflexivity].
Qed.

Lemma buffered_body_app (full line : str) :
  buffered_body full line = full ++ buffered_body [] line.
Proof.
  unfold buffered_body.
  destruct (startswith data_prefix line); [|now rewrite app_nil_r].
  destruct (str_eqb line done_line); [now rewrite app_nil_r|].
  destruct (repair_json_str line) as [j|]; [|now rewrite app_nil_r].
  rewrite (parse_line_app full j).
  destruct (parse_line [] j); [reflexivity|now rewrite app_nil_r].
Qed.

Lemma fold_buffered_body (ls : list str) (full : str) :
  fold_left buffered_body ls full =
  full ++ concat (List.map (buffered_body []) ls).
Proof.
  revert full; induction ls as [|l ls IH]; intros full.
  - simpl. now rewrite app_nil_r.
  - cbn [fold_left List.map concat]. rewrite IH, (buffered_body_app full l).
    now rewrite app_assoc.
Qed.

(** X8.  In buffered mode each logical line contributes a fragment that does
    not depend on what was accumulated before it, and never changes what was
    accumulated: the accumulated content is the concatenation, in the order
    of the lines, of the fragments of the lines. *)
Theorem accumulated_is_concat_of_fragments (response : Response) :
  (forall full line,
      buffered_body full line = full ++ buffered_body [] line) /\
  accumulated response =
    concat (List.map (buffered_body [])
                     (fst (reassemble (aiter_text response)))).
Proof.
  split; [exact buffered_body_app|].
  rewrite accumulated_reassemble. apply fold_buffered_body.
Qed.

(** X6.  When a first run of chunks carries whole lines, handling more chunks
    continues where the first run stopped: the frames of streaming mode, and
    the accumulated content of buffered mode, are those of the first chunks
    followed by those of the others. *)
Theorem whole_lines_compose (sc : Z) (ls1 : list str) (chunks1 chunks2 : list str) :
  Forall (fun l => ~ In nl l) ls1 ->
  concat chunks1 = unlines ls1 ->
  generate {| status_code := sc; aiter_text := chunks1 ++ chunks2 |} =
    generate {| status_code := sc; aiter_text := chunks1 |} ++
    generate {| status_code := sc; aiter_text := chunks2 |} /\
  accumulated {| status_code := sc; aiter_text := chunks1 ++ chunks2 |} =
    accumulated {| status_code := sc; aiter_text := chunks1 |} ++
    accumulated {| status_code := sc; aiter_text := chunks2 |}.
Proof.
  intros H1 E1.
  destruct (reassemble_decompose chunks2) as (E2 & H2 & Ht).
  assert (R1 : reassemble chunks1 = (ls1, [])).
  { apply reassemble_unlines; auto. now rewrite app_nil_r. }
  assert (R12 : reassemble (chunks1 ++ chunks2) =
                (ls1 ++ fst (reassemble chunks2), snd (reassemble chunks2))).
  { apply reassemble_unlines; auto.
    - now rewrite concat_app, E1, E2, unlines_app, app_assoc.
    - apply Forall_app; auto. }
  rewrite !generate_reassemble, !accumulated_reassemble. simpl.
  rewrite R1, R12. simpl. split.
  - apply flat_map_app.
  - rewrite !fold_buffered_body. simpl. now rewrite map_app, concat_app.
Qed.

Lemma whole_lines_compose_witness :
  generate {| status_code := 200;
              aiter_text := [u "data: a"; [nl]] ++ [u "data: b" ++ [nl]] |} =
  generate {| status_code := 200; aiter_text := [u "data: a"; [nl]] |} ++
  generate {| status_code := 200; aiter_text := [u "data: b" ++ [nl]] |}.
Proof.
  refine (proj1 (whole_lines_compose 200 [u "data: a"]
                   [u "data: a"; [nl]] [u "data: b" ++ [nl]] _ _)).
  - repeat constructor. vm_compute. intuition discriminate.
  - reflexivity.
Defined.

(** X7.  Both handlers see the response only through its whole text: two
    responses whose chunks concatenate to the same text give the same frames
    in streaming mode and the same result, value or exception, in buffered
    mode. *)
Theorem handlers_chunk_invariant (sc1 sc2 : Z) (chunks1 chunks2 : list str) :
  concat chunks1 = concat chunks2 ->
  generate {| status_code := sc1; aiter_text := chunks1 |} =
    generate {| status_code := sc2; aiter_text := chunks2 |} /\
  handle_non_stream_response {| status_code := sc1; aiter_text := chunks1 |} =
    handle_non_stream_response {| status_code := sc2; aiter_text := chunks2 |}.
Proof.
  intros E. split.
  - unfold generate; simpl. now rewrite !for_chunks_whole, E.
  - rewrite !handle_non_stream_response_eq.
    unfold accumulated, response_json, text; simpl.
    now rewrite !for_chunks_whole, E.
Qed.

Lemma handlers_chunk_invariant_witness :
  handle_non_stream_response
    {| status_code := 200;
       aiter_text := [uq "data: {'choices':[{'delta':{'content':'ok'}}]}"
                      ++ [nl]] |} =
  handle_non_stream_response
    {| status_code := 200;
       aiter_text := [uq "data: {'choi"; [];
                      uq "ces':[{'delta':{'content':'ok'}}]}"; [nl]] |}.
Proof.
  refine (proj2 (handlers_chunk_invariant 200 200
                   [uq "data: {'choices':[{'delta':{'content':'ok'}}]}" ++ [nl]]
                   [uq "data: {'choi"; [];
                    uq "ces':[{'delta':{'content':'ok'}}]}"; [nl]] _)).
  reflexivity.
Defined.

(** ** Decoding with more fuel, and decoding plain strings *)

Lemma scan_fuel_mono (f : nat) :
  (forall s f', f <= f' -> scan_once f s <> PFuel ->
                scan_once f' s = scan_once f s) /\
  (forall s acc f', f <= f' -> parse_members f s acc <> PFuel ->
                    parse_members f' s acc = parse_members f s acc) /\
  (forall s acc f', f <= f' -> parse_items f s acc <> PFuel ->
                    parse_items f' s acc = parse_items f s acc).
Proof.
  induction f as [|f (IHs & IHm & IHi)].
  - split; [|split]; intros; exfalso; auto.
  - split; [|split].
    + intros s [|f'] Hle H; [lia|]. assert (Hf : f <= f') by lia.
      destruct s as [|c t]; [reflexivity|].
      cbn [scan_once] in H |- *.
      destruct (c =? 34)%N; [reflexivity|].
      destruct (c =? 123)%N.
      { destruct (skip_ws t) as [|c' r]; [reflexivity|].
        destruct (c' =? 125)%N; [reflexivity|]. now apply IHm. }
      destruct (c =? 91)%N; [|reflexivity].
      destruct (skip_ws t) as [|c' r]; [reflexivity|].
      destruct (c' =? 93)%N; [reflexivity|]. now apply IHi.
    + intros s acc [|f'] Hle H; [lia|]. assert (Hf : f <= f') by lia.
      destruct s as [|c t]; [reflexivity|].
      cbn [parse_members] in H |- *.
      destruct (c =? 34)%N; [|reflexivity].
      destruct (scanstring t) as [key r1| |]; try reflexivity.
      destruct (skip_ws r1) as [|c2 r2]; [reflexivity|].
      destruct (c2 =? 58)%N; [|reflexivity].
      destruct (scan_once f (skip_ws r2)) as [v r3| |] eqn:E.
      * rewrite (IHs (skip_ws r2) f' Hf) by (rewrite E; discriminate).
        rewrite E.
        destruct (skip_ws r3) as [|c3 r4]; [reflexivity|].
        destruct (c3 =? 125)%N; [reflexivity|].
        destruct (c3 =? 44)%N; [|reflexivity]. now apply IHm.
      * rewrite (IHs (skip_ws r2) f' Hf) by (rewrite E; discriminate).
        now rewrite E.
      * exfalso; now apply H.
    + intros s acc [|f'] Hle H; [lia|]. assert (Hf : f <= f') by lia.
      cbn [parse_items] in H |- *.
      destruct (scan_once f s) as [v r1| |] eqn:E.
      * rewrite (IHs s f' Hf) by (rewrite E; discriminate). rewrite E.
        destruct (skip_ws r1) as [|c r2]; [reflexivity|].
        destruct (c =? 93)%N; [reflexivity|].
        destruct (c =? 44)%N; [|reflexivity]. now apply IHi.
      * rewrite (IHs s f' Hf) by (rewrite E; discriminate). now rewrite E.
      * exfalso; now apply H.
Qed.

(** A value that [scan_once] reads to the end of the text, with any fuel, is
    what [json_loads] returns. *)
Lemma json_loads_scan (f : nat) (s : str) (v : json) :
  startswith [65279%N] s = false -> skip_ws s = s ->
  scan_once f s = POk v [] -> json_loads s = Some v.
Proof.
  intros Hb Hw Hs. unfold json_loads. rewrite Hb, Hw.
  destruct (Nat.le_ge_cases f (2 * length s + 2)) as [Hle|Hge].
  - destruct (scan_fuel_mono f) as (M & _ & _).
    rewrite (M s _ Hle) by (rewrite Hs; discriminate). now rewrite Hs.
  - destruct (scan_fuel_mono (2 * length s + 2)) as (M & _ & _).
    pose proof (json_loads_fuel s) as Hf. rewrite Hw in Hf.
    rewrite <- (M s f Hge Hf). now rewrite Hs.
Qed.

Lemma scanstring_fuel_plain (s : str) :
  forall (f : nat) (acc rest : str),
    length s < f -> plain s = true ->
    scanstring_fuel f (s ++ 34%N :: rest) acc = POk (rev acc ++ s) rest.
Proof.
  induction s as [|c s IH]; intros [|f] acc rest Hf Hp; try (simpl in Hf; lia).
  - simpl. now rewrite app_nil_r.
  - simpl in Hp. apply andb_true_iff in Hp as [Hc Hp].
    unfold plain_char in Hc.
    apply andb_true_iff in Hc as [Hc H92]. apply andb_true_iff in Hc as [H32 H34].
    apply negb_true_iff in H34, H92.
    cbn [app scanstring_fuel]. rewrite H34, H92.
    replace (c <=? 31)%N with false
      by (symmetry; apply N.leb_gt; apply N.leb_le in H32; lia).
    rewrite IH by (simpl in Hf; auto; lia).
    simpl. now rewrite <- app_assoc.
Qed.

Lemma scanstring_plain (s rest : str) :
  plain s = true -> scanstring (s ++ 34%N :: rest) = POk s rest.
Proof.
  intros Hp. unfold scanstring.
  rewrite scanstring_fuel_plain; [reflexivity| |exact Hp].
  rewrite length_app. simpl. lia.
Qed.

Lemma scan_string_value (f : nat) (s rest : str) :
  plain s = true ->
  scan_once (S f) (34%N :: s ++ 34%N :: rest) = POk (JStr s) rest.
Proof.
  intros Hp. cbn [scan_once]. change (34 =? 34)%N with true. cbv iota.
  now rewrite scanstring_plain.
Qed.

(** An object with one member, written without spaces. *)
Lemma scan_object1 (f : nat) (key body : str) (v : json) (rest : str) :
  plain key = true -> skip_ws body = body ->
  scan_once f body = POk v (125%N :: rest) ->
  scan_once (S (S f)) (123%N :: 34%N :: key ++ 34%N :: 58%N :: body)
  = POk (JObj [(key, v)]) rest.
Proof.
  intros Hk Hw Hs.
  cbn [scan_once]. change (123 =? 34)%N with false.
  change (123 =? 123)%N with true. cbv iota.
  cbn [skip_ws]. change (json_ws 34) with false. cbv iota.
  change (34 =? 125)%N with false. cbv iota.
  cbn [parse_members]. change (34 =? 34)%N with true. cbv iota.
  rewrite scanstring_plain by exact Hk.
  cbn [skip_ws]. change (json_ws 58) with false. cbv iota.
  change (58 =? 58)%N with true. cbv iota.
  rewrite Hw, Hs.
  cbn [skip_ws]. change (json_ws 125) with false. cbv iota.
  change (125 =? 125)%N with true. reflexivity.
Qed.

(** An array with one item that is an object, written without spaces. *)
Lemma scan_array1 (f : nat) (body : str) (v : json) (rest : str) :
  scan_once f (123%N :: body) = POk v (93%N :: rest) ->
  scan_once (S (S f)) (91%N :: 123%N :: body) = POk (JArr [v]) rest.
Proof.
  intros Hs.
  cbn [scan_once]. change (91 =? 34)%N with false.
  change (91 =? 123)%N with false. change (91 =? 91)%N with true. cbv iota.
  cbn [skip_ws]. change (json_ws 123) with false. cbv iota.
  change (123 =? 93)%N with false. cbv iota.
  cbn [parse_items]. rewrite Hs.
  cbn [skip_ws]. change (json_ws 93) with false. cbv iota.
  change (93 =? 93)%N with true. reflexivity.
Qed.

Lemma json_loads_delta_payload (s : str) :
  plain s = true ->
  json_loads (delta_payload s) =
  Some (JObj [(u "choices",
               JArr [JObj [(u "delta",
                            JObj [(u "content", JStr s)])]])]).
Proof.
  intros Hp.
  apply (json_loads_scan 9); [reflexivity|reflexivity|].
  change (delta_payload s) with
    (123%N :: 34%N :: u "choices" ++ 34%N :: 58%N ::
     91%N :: 123%N :: 34%N :: u "delta" ++ 34%N :: 58%N ::
     123%N :: 34%N :: u "content" ++ 34%N :: 58%N ::
     34%N :: s ++ 34%N :: [125; 125; 93; 125]%N).
  apply scan_object1; [reflexivity|reflexivity|].
  apply scan_array1.
  apply scan_object1; [reflexivity|reflexivity|].
  apply scan_object1; [reflexivity|reflexivity|].
  now apply scan_string_value.
Qed.

(** ** More on the repairs of buffered mode *)

Lemma endswith1_inv (c : N) (s : str) :
  endswith [c] s = true -> exists x, s = x ++ [c].
Proof.
  rewrite endswith1. destruct (rev s) as [|y t] eqn:E; [discriminate|].
  intros H. apply N.eqb_eq in H; subst y. exists (rev t).
  rewrite <- (rev_involutive s), E. reflexivity.
Qed.

(** A text between two characters that are not spaces is left by [strip]. *)
Lemma strip_fixed (a b : N) (s : str) :
  isspace a = false -> isspace b = false ->
  startswith [a] s = true -> endswith [b] s = true -> strip s = s.
Proof.
  intros Ha Hb Hs He.
  apply endswith1_inv in He as [x ->].
  rewrite strip_snoc_nonspace by exact Hb. f_equal.
  destruct x as [|c x]; [reflexivity|].
  simpl in Hs. apply andb_true_iff in Hs as [Hs _].
  apply N.eqb_eq in Hs; subst c. simpl. now rewrite Ha.
Qed.

Lemma repair_json_str_single (t : str) :
  repair_json_str (u "data: " ++ 123%N :: t) = finish_json_str (123%N :: t).
Proof. reflexivity. Qed.

(** A payload between braces, on a line with a single prefix. *)
Lemma repair_json_str_braced (json_str : str) :
  startswith (u "{") json_str = true ->
  endswith (u "}") json_str = true ->
  repair_json_str (u "data: " ++ json_str) = Some json_str.
Proof.
  intros Hs He.
  assert (Hst : strip json_str = json_str)
    by (apply (strip_fixed 123 125); auto).
  destruct (startswith_inv _ _ Hs) as [t Et]. simpl in Et. subst json_str.
  rewrite repair_json_str_single.
  rewrite finish_json_str_closed; rewrite Hst; auto.
Qed.

(** The same payload, on a line with a doubled prefix. *)
Lemma repair_json_str_braced_doubled (json_str : str) :
  startswith (u "{") json_str = true ->
  endswith (u "}") json_str = true ->
  repair_json_str (u "data: data: " ++ json_str) = Some json_str.
Proof.
  intros Hs He.
  assert (Hst : strip json_str = json_str)
    by (apply (strip_fixed 123 125); auto).
  destruct (startswith_inv _ _ Hs) as [t Et]. simpl in Et.
  change (u "data: data: " ++ json_str)
    with (u "data: data:" ++ 32%N :: json_str).
  rewrite repair_json_str_doubled. cbn [lstrip]. change (isspace 32) with true.
  cbv iota.
  assert (Hl : lstrip json_str = json_str) by (rewrite Et; reflexivity).
  rewrite Hl. unfold brace_repair. rewrite Hst, Hs. cbn [negb].
  rewrite Hst, He. cbn [negb].
  replace (str_eqb json_str (u "[DONE]")) with false
    by (rewrite Et; reflexivity).
  rewrite finish_json_str_closed; rewrite Hst; auto.
Qed.

(** X12.  A payload that already stands between braces reaches [json.loads]
    as it is: the repairs change nothing in it, on a line with a single
    prefix and on a line with a doubled one. *)
Theorem braced_payload_untouched (json_str : str) :
  startswith (u "{") json_str = true ->
  endswith (u "}") json_str = true ->
  repair_json_str (u "data: " ++ json_str) = Some json_str /\
  repair_json_str (u "data: data: " ++ json_str) = Some json_str.
Proof.
  intros Hs He. split.
  - now apply repair_json_str_braced.
  - now apply repair_json_str_braced_doubled.
Qed.

Lemma braced_payload_untouched_witness :
  repair_json_str (u "data: " ++ uq "{'a': [1, 2]}") = Some (uq "{'a': [1, 2]}") /\
  repair_json_str (u "data: data: " ++ uq "{'a': [1, 2]}")
    = Some (uq "{'a': [1, 2]}").
Proof.
  apply (braced_payload_untouched (uq "{'a': [1, 2]}")); reflexivity.
Defined.

Lemma delta_payload_closed (s : str) :
  startswith (u "{") (delta_payload s) = true /\
  endswith (u "}") (delta_payload s) = true.
Proof.
  split; [reflexivity|].
  unfold delta_payload.
  change (uq "'}}]}") with ([34; 125; 125; 93] ++ [125])%N.
  rewrite !app_assoc. apply endswith1_snoc.
Qed.

Lemma add_delta_payload (full s : str) :
  add_delta full
    (JObj [(u "choices",
            JArr [JObj [(u "delta", JObj [(u "content", JStr s)])]])])
  = Ok (full ++ s).
Proof. reflexivity. Qed.

Lemma parse_line_delta_payload (full s : str) :
  plain s = true -> parse_line full (delta_payload s) = Ok (full ++ s).
Proof.
  intros Hp. unfold parse_line.
  rewrite (json_loads_delta_payload s Hp). apply add_delta_payload.
Qed.

(** A well-formed delta line adds its fragment. *)
Lemma buffered_body_delta_line (full s : str) :
  plain s = true -> buffered_body full (delta_line s) = full ++ s.
Proof.
  intros Hp. unfold buffered_body.
  change (startswith data_prefix (delta_line s)) with true.
  change (str_eqb (delta_line s) done_line) with false. cbv iota.
  unfold delta_line.
  destruct (delta_payload_closed s) as [Hs He].
  rewrite (repair_json_str_braced _ Hs He).
  now rewrite parse_line_delta_payload.
Qed.

Lemma plain_no_nl (s : str) : plain s = true -> ~ In nl s.
Proof.
  intros Hp H. unfold plain in Hp. rewrite forallb_forall in Hp.
  specialize (Hp nl H). discriminate.
Qed.

Lemma delta_line_no_nl (s : str) : plain s = true -> ~ In nl (delta_line s).
Proof.
  intros Hp H. unfold delta_line, delta_payload in H.
  repeat (apply in_app_or in H as [H|H]);
    try (vm_compute in H; intuition discriminate).
  now apply (plain_no_nl s).
Qed.

Lemma fold_delta_lines (fs : list str) (full : str) :
  Forall (fun s => plain s = true) fs ->
  fold_left buffered_body (List.map delta_line fs) full = full ++ concat fs.
Proof.
  intros H; revert full; induction H as [|s fs Hs _ IH]; intros full.
  - simpl. now rewrite app_nil_r.
  - cbn [List.map fold_left concat].
    rewrite (buffered_body_delta_line full s Hs), IH. now rewrite app_assoc.
Qed.

(** X10.  Round trip of buffered mode: the delta events that carry the
    fragments [fs] (texts without control characters, double quotes or
    backslashes, so written in JSON as they are), followed by the terminal
    marker and cut into chunks in any way, give back the concatenation of the
    fragments, provided it is not empty. *)
Theorem buffered_round_trip (sc : Z) (fs : list str) (chunks : list str) :
  Forall (fun s => plain s = true) fs ->
  concat fs <> [] ->
  concat chunks = unlines (List.map delta_line fs ++ [done_line]) ->
  handle_non_stream_response {| status_code := sc; aiter_text := chunks |}
  = Ok (JStr (concat fs)).
Proof.
  intros Hp Hne E. rewrite handle_non_stream_response_eq.
  rewrite (accumulated_lines sc chunks (List.map delta_line fs ++ [done_line]) []).
  - rewrite fold_left_app, fold_delta_lines by exact Hp.
    cbn [fold_left app]. change (buffered_body (concat fs) done_line)
      with (concat fs).
    destruct (concat fs); [contradiction|reflexivity].
  - now rewrite app_nil_r.
  - apply Forall_app; split.
    + apply Forall_map. revert Hp. apply Forall_impl.
      intros s Hs. now apply delta_line_no_nl.
    + constructor; [apply done_line_no_nl|constructor].
  - intros [].
Qed.

Lemma buffered_round_trip_witness :
  handle_non_stream_response
    {| status_code := 200;
       aiter_text :=
         [unlines (List.map delta_line [u "Good "; []; u "day, "; u "world."]
                   ++ [done_line])] |}
  = Ok (JStr (u "Good day, world.")).
Proof.
  apply (buffered_round_trip 200 [u "Good "; []; u "day, "; u "world."]
           [unlines (List.map delta_line [u "Good "; []; u "day, "; u "world."]
                     ++ [done_line])]).
  - repeat constructor.
  - discriminate.
  - reflexivity.
Defined.

(** X13.  A payload that is cut after a closing bracket gets its closing
    brace back: on a line with a single prefix, a payload from an opening
    brace to a closing bracket is handed to [json.loads] with one closing
    brace added, so that a delta event that lost its last brace still gives
    its fragment. *)
Theorem truncated_object_closed (json_str : str) :
  startswith (u "{") json_str = true ->
  endswith (u "]") json_str = true ->
  repair_json_str (u "data: " ++ json_str) = Some (json_str ++ u "}") /\
  (forall full s,
      plain s = true ->
      json_str ++ u "}" = delta_payload s ->
      buffered_body full (u "data: " ++ json_str) = full ++ s).
Proof.
  intros Hs He.
  assert (Hst : strip json_str = json_str)
    by (apply (strip_fixed 123 93); auto).
  destruct (startswith_inv _ _ Hs) as [t Et]. simpl in Et.
  assert (Hr : repair_json_str (u "data: " ++ json_str)
               = Some (json_str ++ u "}")).
  { rewrite Et, repair_json_str_single, <- Et.
    unfold finish_json_str. rewrite Hst, He, Hs.
    change (u "}") with [125%N].
    rewrite (endswith1_other 93 125 json_str He) by discriminate.
    rewrite Et. reflexivity. }
  split; [exact Hr|].
  intros full s Hp Ed. unfold buffered_body. rewrite Hr, Ed.
  rewrite (parse_line_delta_payload full s Hp).
  rewrite Et. reflexivity.
Qed.

Lemma truncated_object_closed_witness :
  buffered_body (u "so ")
    (u "data: " ++ uq "{'choices':[{'delta':{'content':'far'}}]")
  = u "so far".
Proof.
  refine (proj2 (truncated_object_closed
                   (uq "{'choices':[{'delta':{'content':'far'}}]") _ _)
            (u "so ") (u "far") _ _); reflexivity.
Defined.

Lemma from_first_app (c : N) (noise j : str) :
  ~ In c noise -> from_first c (noise ++ c :: j) = Some (c :: j).
Proof.
  induction noise as [|x noise IH]; intros H; simpl.
  - now rewrite N.eqb_refl.
  - destruct (N.eqb x c) eqn:E.
    + apply N.eqb_eq in E. exfalso. apply H. now left.
    + apply IH. intros Hin. apply H. now right.
Qed.

(** X14.  The retry of a failed parse starts at the first opening brace: for
    a text that [json.loads] rejects and that [strip] leaves as it is, made
    of noise without a brace and then a text that opens with one, the result
    of the line is that of parsing the text without the noise. *)
Theorem parse_line_skips_noise (full noise json_str : str) :
  ~ In 123%N noise ->
  startswith (u "{") json_str = true ->
  strip (noise ++ json_str) = noise ++ json_str ->
  json_loads (noise ++ json_str) = None ->
  parse_line full (noise ++ json_str) =
  match json_loads json_str with
  | Some data => add_delta full data
  | None => Raise JSONDecodeError
  end.
Proof.
  intros Hn Hs Hst Hl. unfold parse_line. rewrite Hl, Hst.
  destruct (startswith_inv _ _ Hs) as [t Et]. simpl in Et. subst json_str.
  destruct noise as [|x noise].
  - reflexivity.
  - assert (Hx : (x =? 123)%N = false).
    { apply N.eqb_neq. intros ->. apply Hn. now left. }
    change (startswith (u "{") ((x :: noise) ++ 123%N :: t))
      with ((123 =? x)%N && true).
    rewrite N.eqb_sym, Hx. cbn [andb negb].
    now rewrite (from_first_app 123 (x :: noise) t Hn).
Qed.

Lemma parse_line_skips_noise_witness :
  parse_line (u "so ")
    (u "upstream log: " ++ uq "{'choices':[{'delta':{'content':'far'}}]}")
  = Ok (u "so far").
Proof.
  refine (eq_trans
            (parse_line_skips_noise (u "so ") (u "upstream log: ")
               (uq "{'choices':[{'delta':{'content':'far'}}]}") _ _ _ _) _).
  - vm_compute. intuition discriminate.
  - reflexivity.
  - reflexivity.
  - reflexivity.
  - reflexivity.
Defined.

(** A text that opens with the letter d is not JSON. *)
Lemma json_loads_letter_d (t : str) : json_loads (100%N :: t) = None.
Proof.
  unfold json_loads.
  replace (2 * length (100%N :: t) + 2) with (S (2 * length t + 3))
    by (simpl; lia).
  reflexivity.
Qed.

(** X11.  In buffered mode an event-stream body from which nothing is
    accumulated (only terminal markers, only empty deltas, only lines that
    are skipped) never gives a value, not even the empty string: the
    fallback parses the whole body, and a body that opens with [data:] is
    not JSON, so [handle_non_stream_response] raises. *)
Theorem event_stream_without_content_fails (response : Response) (v : json) :
  accumulated response = [] ->
  startswith (u "data:") (text response) = true ->
  handle_non_stream_response response <> Ok v.
Proof.
  intros Ha Hs. rewrite handle_non_stream_response_eq, Ha.
  unfold response_json.
  apply startswith_inv in Hs as [t ->].
  change (u "data:" ++ t) with (100%N :: (u "ata:" ++ t)).
  rewrite json_loads_letter_d. discriminate.
Qed.

Lemma event_stream_without_content_fails_witness :
  handle_non_stream_response
    {| status_code := 200;
       aiter_text := [unlines [delta_line []; delta_line []; done_line]] |}
  <> Ok (JStr []).
Proof.
  apply (event_stream_without_content_fails
           {| status_code := 200;
              aiter_text :=
                [unlines [delta_line []; delta_line []; done_line]] |}
           (JStr []));
    reflexivity.
Defined.

(** X15.  Of a decoded object only the first choice is read.  With a list of
    choices whose first item is an object: a missing [delta] or a missing
    [content] adds nothing, a [content] that is a string is added, a
    [content] of another type raises [TypeError] and a [delta] that is not an
    object raises [AttributeError], both of which skip the line; the other
    choices are never looked at. *)
Theorem add_delta_first_choice (full : str) (members first : list (str * json))
        (others : list json) :
  dict_get (u "choices") members = Some (JArr (JObj first :: others)) ->
  add_delta full (JObj members) =
    match dict_get (u "delta") first with
    | None => Ok full
    | Some (JObj delta) =>
        match dict_get (u "content") delta with
        | None => Ok full
        | Some (JStr s) => Ok (full ++ s)
        | Some _ => Raise TypeError
        end
    | Some _ => Raise AttributeError
    end /\
  (forall line,
      startswith data_prefix line = true ->
      repair_json_str line <> None ->
      (forall json_str, repair_json_str line = Some json_str ->
                        json_loads json_str = Some (JObj members)) ->
      buffered_body full line =
        match add_delta full (JObj members) with
        | Ok full' => full'
        | Raise _ => full
        end).
Proof.
  intros Hc. split.
  - unfold add_delta, bind, py_contains, py_getitem, py_len. rewrite Hc.
    cbn [length Nat.ltb Nat.leb py_getitem0 py_get].
    destruct (dict_get (u "delta") first) as [[| | | | |delta]|];
      try reflexivity.
    + cbn [py_get].
      destruct (dict_get (u "content") delta) as [[| | | | |]|];
        try reflexivity.
      cbn [py_iadd]. now rewrite app_nil_r.
    + cbn [py_get dict_get py_iadd]. now rewrite app_nil_r.
  - intros line Hd Hr Hj. unfold buffered_body. rewrite Hd.
    destruct (str_eqb line done_line) eqn:Ed.
    + apply str_eqb_eq in Ed. subst line. exfalso.
      specialize (Hj (u "[DONE]") eq_refl). discriminate.
    + destruct (repair_json_str line) as [j|]; [|contradiction].
      unfold parse_line. now rewrite (Hj j eq_refl).
Qed.

Lemma add_delta_first_choice_witness :
  add_delta (u "so far")
    (JObj [(u "choices",
            JArr [JObj [(u "delta", JObj [(u "content", JNull)])];
                  JObj [(u "delta", JObj [(u "content", JStr (u "no"))])]])])
  = Raise TypeError.
Proof.
  refine (eq_trans
            (proj1 (add_delta_first_choice (u "so far")
                      [(u "choices",
                        JArr [JObj [(u "delta", JObj [(u "content", JNull)])];
                              JObj [(u "delta",
                                     JObj [(u "content", JStr (u "no"))])]])]
                      [(u "delta", JObj [(u "content", JNull)])]
                      [JObj [(u "delta", JObj [(u "content", JStr (u "no"))])]]
                      _)) _);
    reflexivity.
Defined.

(** ** [models.py] *)

Lemma mapping_get_in (k v : str) (d : list (str * str)) :
  Models.mapping_get k d = Some v -> In v (List.map snd d).
Proof.
  induction d as [|[k' v'] d IH]; simpl; [discriminate|].
  destruct (str_eqb k k'); [intros H; injection H as ->; now left|].
  intros H; right; auto.
Qed.

Lemma mapped_names_not_keys :
  forallb (fun v => match Models.mapping_get v Models.MODEL_MAPPING, v with
                    | None, _ :: _ => true
                    | _, _ => false
                    end)
          (List.map snd Models.MODEL_MAPPING) = true.
Proof. vm_compute. reflexivity. Qed.

(** X16.  [map_model_name] is idempotent: no upstream name of the table is
    itself a key of the table, so a name that has been mapped, a name that is
    not in the table and the falsy names are all left as they are by a second
    call. *)
Theorem map_model_name_idempotent (model_name : option str) :
  Models.map_model_name (Models.map_model_name model_name) =
  Models.map_model_name model_name.
Proof.
  destruct model_name as [[|c s]|]; try reflexivity.
  change (Models.map_model_name (Some (c :: s))) with
    (Some (match Models.mapping_get (c :: s) Models.MODEL_MAPPING with
           | Some mapped => mapped
           | None => c :: s
           end)).
  destruct (Models.mapping_get (c :: s) Models.MODEL_MAPPING) as [v|] eqn:E.
  - apply mapping_get_in in E.
    pose proof mapped_names_not_keys as H. rewrite forallb_forall in H.
    specialize (H v E). unfold Models.map_model_name.
    destruct (Models.mapping_get v Models.MODEL_MAPPING); [discriminate|].
    destruct v; [discriminate|reflexivity].
  - unfold Models.map_model_name. now rewrite E.
Qed.

(** ** A malformed line among well-formed ones *)

Lemma buffered_body_raise (full bad json_str : str) (e : exn) :
  repair_json_str bad = Some json_str ->
  parse_line [] json_str = Raise e ->
  buffered_body full bad = full.
Proof.
  intros Hr Hp. rewrite buffered_body_app. unfold buffered_body.
  destruct (startswith data_prefix bad); [|apply app_nil_r].
  destruct (str_eqb bad done_line); [apply app_nil_r|].
  rewrite Hr, Hp. apply app_nil_r.
Qed.

(** X18.  A line that cannot be used does not stop the relay in buffered
    mode: when the parse of one line raises, whatever the exception, the
    content accumulated before it is kept and the lines after it are still
    handled, so that well-formed delta events around it give the
    concatenation of their fragments. *)
Theorem malformed_line_skipped (sc : Z) (fs1 fs2 : list str)
        (bad json_str : str) (e : exn) (chunks : list str) :
  Forall (fun s => plain s = true) fs1 ->
  Forall (fun s => plain s = true) fs2 ->
  ~ In nl bad ->
  repair_json_str bad = Some json_str ->
  parse_line [] json_str = Raise e ->
  concat fs1 ++ concat fs2 <> [] ->
  concat chunks =
    unlines (List.map delta_line fs1 ++ bad :: List.map delta_line fs2
             ++ [done_line]) ->
  handle_non_stream_response {| status_code := sc; aiter_text := chunks |}
  = Ok (JStr (concat fs1 ++ concat fs2)).
Proof.
  intros H1 H2 Hn Hr Hp Hne E. rewrite handle_non_stream_response_eq.
  rewrite (accumulated_lines sc chunks
             (List.map delta_line fs1 ++ bad :: List.map delta_line fs2
              ++ [done_line]) []).
  - rewrite fold_left_app, fold_delta_lines by exact H1.
    cbn [fold_left app].
    rewrite (buffered_body_raise _ bad json_str e Hr Hp).
    rewrite fold_left_app, fold_delta_lines by exact H2.
    cbn [fold_left].
    change (buffered_body (concat fs1 ++ concat fs2) done_line)
      with (concat fs1 ++ concat fs2).
    destruct (concat fs1 ++ concat fs2); [contradiction|reflexivity].
  - now rewrite app_nil_r.
  - assert (Hd : forall fs, Forall (fun s => plain s = true) fs ->
                 Forall (fun l => ~ In nl l) (List.map delta_line fs)).
    { intros fs Hf. apply Forall_map. revert Hf. apply Forall_impl.
      intros s Hs. now apply delta_line_no_nl. }
    apply Forall_app; split; [now apply Hd|].
    constructor; [exact Hn|].
    apply Forall_app; split; [now apply Hd|].
    constructor; [apply done_line_no_nl|constructor].
  - intros [].
Qed.

Lemma malformed_line_skipped_witness :
  handle_non_stream_response
    {| status_code := 200;
       aiter_text :=
         [unlines (List.map delta_line [u "Hel"]
                   ++ uq "data: {'choices': oops}"
                   :: List.map delta_line [u "lo"] ++ [done_line])] |}
  = Ok (JStr (u "Hel" ++ u "lo")).
Proof.
  apply (malformed_line_skipped 200 [u "Hel"] [u "lo"]
           (uq "data: {'choices': oops}") (uq "{'choices': oops}")
           JSONDecodeError
           [unlines (List.map delta_line [u "Hel"]
                     ++ uq "data: {'choices': oops}"
                     :: List.map delta_line [u "lo"] ++ [done_line])]).
  - repeat constructor.
  - repeat constructor.
  - vm_compute. intuition discriminate.
  - reflexivity.
  - reflexivity.
  - discriminate.
  - reflexivity.
Defined.
